(** * The CUDA device manager of [src/backend/cuda/platform.cpp]

    A shallow embedding of the device registry: the cores-per-unit table,
    the four card comparators, [DeviceManager]'s constructor,
    [sortDevices] and [setActiveDevice], the free accessor functions
    built on the singleton, and the report functions [getInfo],
    [getPlatformInfo], [getDriverVersion] and [getCUDARuntimeVersion].
    Every definition follows the C++ text; the theorems at the end
    settle the properties stated for the registry. *)

From Stdlib Require Import ZArith NArith List Bool Lia String Ascii.
From Stdlib Require Import Permutation Sorting.Sorted DecimalString.
Import ListNotations.
Local Open Scope Z_scope.

(* ================================================================= *)
(** ** Machine integers *)

(** [int] is a 32-bit two's complement integer and [size_t] a 64-bit
    unsigned one.  Values are kept in [Z]; arithmetic on [int] is
    followed by [to_int], which is what the compiled code computes
    (the C++ standard leaves signed overflow undefined). *)

Definition INT_MIN : Z := - 2 ^ 31.
Definition INT_MAX : Z := 2 ^ 31 - 1.

Definition to_int (z : Z) : Z := (z + 2 ^ 31) mod 2 ^ 32 - 2 ^ 31.
Definition to_size_t (z : Z) : Z := z mod 2 ^ 64.

Definition in_int (z : Z) : Prop := INT_MIN <= z <= INT_MAX.

Definition int_mul (a b : Z) : Z := to_int (a * b).
Definition int_add (a b : Z) : Z := to_int (a + b).
Definition int_shl (a : Z) (k : Z) : Z := to_int (Z.shiftl a k).

(* ================================================================= *)
(** ** Outcomes of a call *)

(** A call returns, throws a C++ exception, ends the process through
    the [CUDA] macro ([exit(EXIT_FAILURE)]), or runs into undefined
    behaviour (an out-of-bounds [operator[]]). *)

Inductive outcome (A : Type) : Type :=
| Returns (a : A)
| Throws (what : string)
| Exits
| Undefined.

Arguments Returns {A} a.
Arguments Throws {A} what.
Arguments Exits {A}.
Arguments Undefined {A}.

Definition bind {A B : Type} (c : outcome A) (k : A -> outcome B) : outcome B :=
  match c with
  | Returns a => k a
  | Throws w => Throws w
  | Exits => Exits
  | Undefined => Undefined
  end.

Declare Scope outcome_scope.
Delimit Scope outcome_scope with outcome.
Notation "x <- c ;; k" := (bind c (fun x => k))
  (at level 61, c at next level, right associativity) : outcome_scope.
Notation "c ;;; k" := (bind c (fun _ => k))
  (at level 61, right associativity) : outcome_scope.

(* ================================================================= *)
(** ** The CUDA runtime seen from this file *)

Inductive cudaError_t : Type :=
| cudaSuccess
| cudaErrorInvalidDevice
| cudaErrorNoDevice
| cudaErrorUnknown.

Definition cudaError_eqb (a b : cudaError_t) : bool :=
  match a, b with
  | cudaSuccess, cudaSuccess
  | cudaErrorInvalidDevice, cudaErrorInvalidDevice
  | cudaErrorNoDevice, cudaErrorNoDevice
  | cudaErrorUnknown, cudaErrorUnknown => true
  | _, _ => false
  end.

(** The fields of [cudaDeviceProp] that the file reads. *)
Record cudaDeviceProp : Type := {
  name : string;                (* char name[256] *)
  totalGlobalMem : N;           (* size_t *)
  major : Z;                    (* int *)
  minor : Z;                    (* int *)
  multiProcessorCount : Z;      (* int *)
  clockRate : Z                 (* int *)
}.

(** Modelled from the spec: the struct [cudaDevice_t] is declared in
    [platform.hpp], which is not among the sources.  Its three members
    are the ones this file touches; the spec calls the throughput score
    a derived integer, so [flops] holds the [int] value of the
    expression assigned to it. *)
Record cudaDevice_t : Type := {
  prop : cudaDeviceProp;
  flops : Z;
  nativeId : Z
}.

(** The three runtime calls the registry makes.  [cudaGetDeviceCount]
    yields its status and the count it stores through the pointer;
    the status of [cudaGetDeviceProperties] is dropped by the caller, so
    only the descriptor is kept. *)
Record Platform : Type := {
  cudaGetDeviceCount : cudaError_t * Z;
  cudaGetDeviceProperties : Z -> cudaDeviceProp;
  cudaSetDevice : Z -> cudaError_t
}.

(** [#define CUDA(call)]: on an error the macro prints to stderr and
    leaves the process. *)
Definition CUDA (err : cudaError_t) : outcome unit :=
  if cudaError_eqb cudaSuccess err then Returns tt else Exits.

(* ================================================================= *)
(** ** [compute2cores] *)

(** The local table [gpus], sentinel included. *)
Definition gpus : list (Z * Z) :=
  [ (0x10, 8); (0x11, 8); (0x12, 8); (0x13, 8);
    (0x20, 32); (0x21, 48);
    (0x30, 192); (0x35, 192);
    (0x50, 128);
    (-1, -1) ].

(** [for (int i = 0; gpus[i].compute != -1; ++i)
       if (gpus[i].compute == code) return gpus[i].cores;
     return 0;] *)
Fixpoint scan_gpus (table : list (Z * Z)) (code : Z) : Z :=
  match table with
  | [] => 0
  | (compute, cores) :: rest =>
      if compute =? -1 then 0
      else if compute =? code then cores
      else scan_gpus rest code
  end.

Definition compute_code (major minor : Z) : Z :=
  int_add (int_shl major 4) minor.

Definition compute2cores (major minor : Z) : Z :=
  scan_gpus gpus (compute_code major minor).

(* ================================================================= *)
(** ** The card comparators *)

(** A comparator body is a sequence of statements; a statement either
    returns a value or falls through to the next one. *)
Definition stmt : Type := option bool.

Definition then_ (s : stmt) (rest : bool) : bool :=
  match s with
  | Some r => r
  | None => rest
  end.

Notation "s ';;' rest" := (then_ s rest)
  (at level 61, right associativity, only parsing).

(** [#define COMPARE(a,b,f) do { return ((a)->f >= (b)->f); } while (0);]
    The macro returns on every path. *)
Definition COMPARE (a b : cudaDevice_t) (f : cudaDevice_t -> Z) : stmt :=
  Some (f a >=? f b).

Definition prop_major (d : cudaDevice_t) : Z := major (prop d).
Definition prop_minor (d : cudaDevice_t) : Z := minor (prop d).
Definition prop_totalGlobalMem (d : cudaDevice_t) : Z :=
  Z.of_N (totalGlobalMem (prop d)).

Definition card_compare_compute (l r : cudaDevice_t) : bool :=
  COMPARE l r prop_major ;;
  COMPARE l r prop_minor ;;
  COMPARE l r flops ;;
  COMPARE l r prop_totalGlobalMem ;;
  COMPARE l r nativeId ;;
  false.

Definition card_compare_flops (l r : cudaDevice_t) : bool :=
  COMPARE l r flops ;;
  COMPARE l r prop_totalGlobalMem ;;
  COMPARE l r prop_major ;;
  COMPARE l r prop_minor ;;
  COMPARE l r nativeId ;;
  false.

Definition card_compare_mem (l r : cudaDevice_t) : bool :=
  COMPARE l r prop_totalGlobalMem ;;
  COMPARE l r flops ;;
  COMPARE l r prop_major ;;
  COMPARE l r prop_minor ;;
  COMPARE l r nativeId ;;
  false.

Definition card_compare_num (l r : cudaDevice_t) : bool :=
  COMPARE l r nativeId ;;
  false.

(* ================================================================= *)
(** ** [std::sort] *)

(** [std::sort] is the C++ library's, not this repository's.  It is
    taken here as libstdc++ runs it on a range of at most sixteen
    elements ([_S_threshold]): [__insertion_sort], which walks the range
    from its second element and sinks each element into the ordered
    part on its left.  [comp a b] reads "a goes before b".

    On a longer range libstdc++ first partitions the range
    ([__introsort_loop], [__unguarded_partition]); with a comparator
    that holds in both directions on two elements of the range the
    unguarded scans can leave the range, and nothing is defined.
    [std_sort] says nothing faithful there: the statements below that
    speak of the result of a sort carry the bound [S_threshold], or ask
    for elements the comparator tells apart, on which every sort that
    returns agrees with [std_sort]. *)

(** The length up to which [std::sort] is the insertion sort alone. *)
Definition S_threshold : nat := 16.

Section StdSort.
Context {A : Type}.
Variable comp : A -> A -> bool.

(** [__unguarded_linear_insert]: [val] moves left while
    [comp(val, *next)].  [left] lists the elements on the left of
    the hole, nearest first; so does the result. *)
Fixpoint unguarded_linear_insert (val : A) (left : list A) : list A :=
  match left with
  | [] => [val]
  | next :: before =>
      if comp val next
      then next :: unguarded_linear_insert val before
      else val :: next :: before
  end.

(** One turn of the loop of [__insertion_sort] on the element [val]
    that follows the ordered part [ordered]. *)
Definition insertion_step (ordered : list A) (val : A) : list A :=
  match ordered with
  | [] => [val]
  | first :: _ =>
      if comp val first
      then val :: ordered
      else rev (unguarded_linear_insert val (rev ordered))
  end.

Definition insertion_sort (range : list A) : list A :=
  match range with
  | [] => []
  | first :: rest => fold_left insertion_step rest [first]
  end.

Definition std_sort (range : list A) : list A := insertion_sort range.
End StdSort.

(* ================================================================= *)
(** ** [std::vector] operations used by the registry *)

Definition vector_size {A : Type} (v : list A) : Z := Z.of_nat (List.length v).

(** [v[i]] with an [int] index: the index converts to [size_type];
    an index past the end is undefined behaviour. *)
Definition vector_at {A : Type} (v : list A) (i : Z) : outcome A :=
  let n := to_size_t i in
  if n <? vector_size v then
    match nth_error v (Z.to_nat n) with
    | Some x => Returns x
    | None => Undefined
    end
  else Undefined.

(** [v.reserve(n)] with an [int] argument: a negative [n] converts to a
    [size_type] above [max_size()] and [std::length_error] is thrown. *)
Definition vector_reserve (n : Z) : outcome unit :=
  if n <? 0 then Throws "vector::reserve" else Returns tt.

(* ================================================================= *)
(** ** [DeviceManager] *)

Module Mode.
(** [sort_mode], as the [switch] of [sortDevices] names its values. *)
Inductive sort_mode : Type := memory | flops | compute | none.
End Mode.

Record DeviceManager : Type := {
  cuDevices : list cudaDevice_t;
  activeDev : Z;
  nDevices : Z
}.

Definition with_cuDevices (m : DeviceManager) (v : list cudaDevice_t) : DeviceManager :=
  {| cuDevices := v; activeDev := activeDev m; nDevices := nDevices m |}.

Definition with_activeDev (m : DeviceManager) (device : Z) : DeviceManager :=
  {| cuDevices := cuDevices m; activeDev := device; nDevices := nDevices m |}.

Definition sortDevices (mode : Mode.sort_mode) (m : DeviceManager) : DeviceManager :=
  match mode with
  | Mode.memory => with_cuDevices m (std_sort card_compare_mem (cuDevices m))
  | Mode.flops => with_cuDevices m (std_sort card_compare_flops (cuDevices m))
  | Mode.compute => with_cuDevices m (std_sort card_compare_compute (cuDevices m))
  | Mode.none => with_cuDevices m (std_sort card_compare_num (cuDevices m))
  end.

Local Open Scope outcome_scope.

(** Returns the value of the call and the manager after it. *)
Definition setActiveDevice (P : Platform) (device : Z) (m : DeviceManager)
  : outcome (Z * DeviceManager) :=
  if device >? to_int (vector_size (cuDevices m)) then
    Returns (-1, m)
  else
    let old := activeDev m in
    CUDA (cudaSetDevice P device) ;;;
    Returns (old, with_activeDev m device).

(** The score assigned in the constructor's loop. *)
Definition device_flops (p : cudaDeviceProp) : Z :=
  int_mul (int_mul (multiProcessorCount p) (compute2cores (major p) (minor p)))
          (clockRate p).

(** [for (int i = 0; i < nDevices; i++) { ...; cuDevices.push_back(dev); }]
    with [turns] iterations left. *)
Fixpoint discovery_loop (P : Platform) (turns : nat) (i : Z)
    (devices : list cudaDevice_t) : list cudaDevice_t :=
  match turns with
  | O => devices
  | S turns' =>
      let p := cudaGetDeviceProperties P i in
      let dev := {| prop := p; flops := device_flops p; nativeId := i |} in
      discovery_loop P turns' (i + 1) (devices ++ [dev])
  end.

(** [DeviceManager::DeviceManager()].  The default argument of
    [sortDevices] is declared in [platform.hpp], which is not among the
    sources: it is the parameter [default_mode]. *)
Definition DeviceManager_ctor (P : Platform) (default_mode : Mode.sort_mode)
  : outcome DeviceManager :=
  let '(err, count) := cudaGetDeviceCount P in
  CUDA err ;;;
  if count =? 0 then Throws "No CUDA-Capable devices found"
  else
    vector_reserve count ;;;
    let devices := discovery_loop P (Z.to_nat count) 0 [] in
    let m := {| cuDevices := devices; activeDev := 0; nDevices := count |} in
    let m := sortDevices default_mode m in
    r <- setActiveDevice P 0 m ;;
    Returns (snd r).

(* ================================================================= *)
(** ** The wrapper functions over the singleton *)

(** [DeviceManager::getInstance()] is the manager [m] passed around. *)

Definition getDeviceCount (m : DeviceManager) : Z := nDevices m.

Definition getActiveDeviceId (m : DeviceManager) : Z := activeDev m.

Definition getDeviceNativeId (m : DeviceManager) (device : Z) : outcome Z :=
  if device <? to_int (vector_size (cuDevices m)) then
    d <- vector_at (cuDevices m) device ;;
    Returns (nativeId d)
  else Returns (-1).

Definition setDevice (P : Platform) (device : Z) (m : DeviceManager)
  : outcome (Z * DeviceManager) :=
  setActiveDevice P device m.

Definition getDeviceProp (m : DeviceManager) (device : Z) : outcome cudaDeviceProp :=
  if device <? to_int (vector_size (cuDevices m)) then
    d <- vector_at (cuDevices m) device ;;
    Returns (prop d)
  else
    d <- vector_at (cuDevices m) 0 ;;
    Returns (prop d).

(** [toString] at [int] and at [size_t]. *)
Definition toString_int (val : Z) : string :=
  NilZero.string_of_int (Z.to_int val).

Definition toString_size_t (val : N) : string :=
  NilZero.string_of_uint (N.to_uint val).

(** [!!x] on a [size_t]. *)
Definition not_not (x : N) : N := if (x =? 0)%N then 0%N else 1%N.

Definition newline : string := String (ascii_of_nat 10) EmptyString.

(** [(mem_gpu_total / (1024 * 1024)) + !!(mem_gpu_total % (1024 * 1024))];
    for a 64-bit argument the sum stays below [2^45]. *)
Definition megabytes (mem_gpu_total : N) : N :=
  (mem_gpu_total / (1024 * 1024) + not_not (mem_gpu_total mod (1024 * 1024)))%N.

Local Open Scope string_scope.

Definition getDeviceInfo (m : DeviceManager) (device : Z) : outcome string :=
  dev <- getDeviceProp m device ;;
  let mem_gpu_total := totalGlobalMem dev in
  let show_braces := (getActiveDeviceId m =? device)%Z in
  let id := (if show_braces then "[" else "-") ++ toString_int device ++
            (if show_braces then "]" else "-") in
  let name := name dev in
  let memory := toString_size_t (megabytes mem_gpu_total) ++ " MB" in
  let compute := "CUDA Compute " ++ toString_int (major dev) ++ "." ++
                 toString_int (minor dev) in
  let info := id ++ " " ++
              name ++ ", " ++
              memory ++ ", " ++
              compute ++ newline in
  Returns info.

(** *** The platform report *)

(** The macros the preprocessor tests, and the texts the stream
    writes for the version macros of [af/version.h] and for
    [REVISION], none of which is defined in this file. *)
Inductive arch_macro : Type := ARCH_32 | ARCH_64 | ARCH_unset.
Inductive os_macro : Type := OS_LNX | OS_WIN | OS_MAC.

Record Build : Type := {
  build_arch : arch_macro;
  build_os : os_macro;
  build_arm : bool;             (* __arm__ *)
  AF_VERSION : string;
  AF_VERSION_MINOR : string;
  REVISION : string
}.

Definition get_system (b : Build) : string :=
  match build_arch b with
  | ARCH_32 => "32-bit "
  | ARCH_64 => "64-bit "
  | ARCH_unset => ""
  end ++
  match build_os b with
  | OS_LNX => "Linux"
  | OS_WIN => "Windows"
  | OS_MAC => "Mac OSX"
  end.

(** The driver layer: [nvDriverVersion] of [driver.h] (its return
    value and the C string it leaves in the buffer), the two version
    queries of the runtime, and the text [operator<<] writes for the
    [double] [q + r / 100.] of [getCUDARuntimeVersion]. *)
Record Host : Type := {
  nvDriverVersion : Z * string;
  cudaDriverGetVersion : cudaError_t * Z;
  cudaRuntimeGetVersion : cudaError_t * Z;
  toString_double : Z -> Z -> string
}.

Definition getDriverVersion (b : Build) (h : Host) : outcome string :=
  let '(x, driverVersion) := nvDriverVersion h in
  if negb (x =? 1)%Z then
    match build_os b, build_arm b with
    | OS_MAC, _ | _, true =>
        let '(err, driver) := cudaDriverGetVersion h in
        CUDA err ;;;
        Returns ("CUDA Driver Version: " ++ toString_int driver)
    | _, false => Throws "Invalid driver"
    end
  else Returns driverVersion.

(** [runtime / 100.f > 0] holds exactly when [runtime > 0]; the
    integer division and remainder of C++ truncate towards zero. *)
Definition getCUDARuntimeVersion (h : Host) : outcome string :=
  let '(err, runtime) := cudaRuntimeGetVersion h in
  CUDA err ;;;
  if (0 <? runtime)%Z then
    Returns (toString_double h (Z.quot runtime 1000) (Z.rem runtime 1000))
  else
    Returns (toString_int (Z.quot runtime 1000) ++ ".0").

Definition string_empty (s : string) : bool :=
  match s with
  | EmptyString => true
  | String _ _ => false
  end.

Definition getPlatformInfo (b : Build) (h : Host) : outcome string :=
  driverVersion <- getDriverVersion b h ;;
  cudaRuntime <- getCUDARuntimeVersion h ;;
  let platform := "Platform: CUDA Toolkit " ++ cudaRuntime in
  let platform :=
    if negb (string_empty driverVersion)
    then (platform ++ ", Driver: ") ++ driverVersion
    else platform in
  Returns (platform ++ newline).

(** [for (int i = 0; i < getDeviceCount(); ++i) info << getDeviceInfo(i);]
    with [turns] iterations left. *)
Fixpoint getInfo_loop (m : DeviceManager) (turns : nat) (i : Z) (info : string)
  : outcome string :=
  match turns with
  | O => Returns info
  | S turns' =>
      line <- getDeviceInfo m i ;;
      getInfo_loop m turns' (i + 1)%Z (info ++ line)
  end.

Definition getInfo (b : Build) (h : Host) (m : DeviceManager) : outcome string :=
  let info := "ArrayFire v" ++ AF_VERSION b ++ AF_VERSION_MINOR b ++
              " (CUDA, " ++ get_system b ++ ", build " ++ REVISION b ++ ")" ++
              newline in
  platform <- getPlatformInfo b h ;;
  let info := info ++ platform in
  getInfo_loop m (Z.to_nat (getDeviceCount m)) 0 info.

Local Close Scope string_scope.

(* ================================================================= *)
(** * Properties *)

(** ** Machine integers *)

Lemma to_int_range (z : Z) : in_int (to_int z).
Proof.
  unfold in_int, to_int, INT_MIN, INT_MAX.
  pose proof (Z.mod_pos_bound (z + 2 ^ 31) (2 ^ 32) ltac:(lia)). lia.
Qed.

Lemma to_int_small (z : Z) : in_int z -> to_int z = z.
Proof.
  unfold in_int, to_int, INT_MIN, INT_MAX. intros H.
  rewrite Z.mod_small; lia.
Qed.

(** [to_int] picks a representative of the class modulo [2^32]. *)
Lemma to_int_congr (a b : Z) :
  a mod 2 ^ 32 = b mod 2 ^ 32 -> to_int a = to_int b.
Proof.
  intros H. unfold to_int. f_equal.
  rewrite (Z.add_mod a), (Z.add_mod b) by lia. now rewrite H.
Qed.

Lemma to_int_mod (z : Z) : to_int z mod 2 ^ 32 = z mod 2 ^ 32.
Proof.
  unfold to_int.
  rewrite Zminus_mod, Z.mod_mod by lia.
  rewrite <- Zminus_mod. f_equal. lia.
Qed.

Lemma int_mul_assoc_exact (a b c : Z) :
  int_mul (int_mul a b) c = to_int (a * b * c).
Proof.
  unfold int_mul. apply to_int_congr.
  rewrite Z.mul_mod by lia. rewrite to_int_mod.
  rewrite <- Z.mul_mod by lia. reflexivity.
Qed.

Lemma int_mul_0_r (a : Z) : int_mul a 0 = 0.
Proof. unfold int_mul. now rewrite Z.mul_0_r. Qed.

Lemma int_mul_0_l (a : Z) : int_mul 0 a = 0.
Proof. reflexivity. Qed.

(** ** Lists ordered by a relation *)

Section Ordered.
Context {A : Type}.
Variable R : A -> A -> Prop.

Lemma StronglySorted_app_iff (l1 l2 : list A) :
  StronglySorted R (l1 ++ l2) <->
  StronglySorted R l1 /\ StronglySorted R l2 /\
  (forall a b, In a l1 -> In b l2 -> R a b).
Proof.
  induction l1 as [|x l1 IH]; simpl.
  - split; [intros H; repeat split; [constructor | exact H | contradiction] | tauto].
  - split.
    + intros H. inversion H as [|? ? Hs Hf]; subst.
      apply IH in Hs. destruct Hs as (H1 & H2 & H12).
      rewrite Forall_app in Hf. destruct Hf as [Hf1 Hf2].
      repeat split; [constructor; assumption | assumption |].
      intros a b [<- | Ha] Hb.
      * rewrite Forall_forall in Hf2. now apply Hf2.
      * now apply H12.
    + intros (H1 & H2 & H12).
      inversion H1 as [|? ? Hs Hf]; subst.
      constructor.
      * apply IH. repeat split; auto.
      * rewrite Forall_app. split; [assumption |].
        rewrite Forall_forall. intros b Hb. apply H12; auto.
Qed.

Lemma StronglySorted_nth (l : list A) :
  StronglySorted R l ->
  forall (i j : nat) (a b : A),
    nth_error l i = Some a -> nth_error l j = Some b -> (i < j)%nat -> R a b.
Proof.
  induction 1 as [|x l Hs IH Hf]; intros i j a b Hi Hj Hlt.
  - destruct i; discriminate.
  - destruct j as [|j]; [lia |]. simpl in Hj.
    destruct i as [|i]; simpl in Hi.
    + injection Hi as <-. rewrite Forall_forall in Hf.
      apply Hf. eapply nth_error_In; eassumption.
    + eapply IH; eauto. lia.
Qed.
End Ordered.

Lemma StronglySorted_rev {A : Type} (R : A -> A -> Prop) (l : list A) :
  StronglySorted R l -> StronglySorted (fun a b => R b a) (rev l).
Proof.
  induction 1 as [|x l Hs IH Hf]; simpl; [constructor |].
  apply StronglySorted_app_iff. repeat split.
  - exact IH.
  - repeat constructor.
  - intros a b Ha [<- | []]. apply in_rev in Ha.
    rewrite Forall_forall in Hf. now apply Hf.
Qed.

(** ** [std::sort] rearranges, whatever the comparator *)

Section SortPermutes.
Context {A : Type}.
Variable comp : A -> A -> bool.

Lemma unguarded_linear_insert_perm (val : A) (left : list A) :
  Permutation (val :: left) (unguarded_linear_insert comp val left).
Proof.
  induction left as [|next before IH]; simpl; [reflexivity |].
  destruct (comp val next); [| reflexivity].
  rewrite perm_swap. now constructor.
Qed.

Lemma insertion_step_perm (ordered : list A) (val : A) :
  Permutation (ordered ++ [val]) (insertion_step comp ordered val).
Proof.
  unfold insertion_step. destruct ordered as [|first rest]; [reflexivity |].
  destruct (comp val first).
  - rewrite Permutation_app_comm. reflexivity.
  - rewrite <- Permutation_rev, <- unguarded_linear_insert_perm.
    rewrite <- Permutation_rev. apply Permutation_app_comm.
Qed.

Lemma insertion_loop_perm (rest ordered : list A) :
  Permutation (ordered ++ rest) (fold_left (insertion_step comp) rest ordered).
Proof.
  revert ordered. induction rest as [|val rest IH]; intros ordered; simpl.
  - now rewrite app_nil_r.
  - rewrite <- IH, <- insertion_step_perm, <- app_assoc. reflexivity.
Qed.

Lemma std_sort_perm (range : list A) :
  Permutation range (std_sort comp range).
Proof.
  destruct range as [|first rest]; [reflexivity |].
  apply (insertion_loop_perm rest [first]).
Qed.
End SortPermutes.

(** ** [std::sort] under a comparator of the form [key a >= key b] *)

Section SortByKey.
Context {A : Type}.
Variable key : A -> Z.
Variable comp : A -> A -> bool.
Hypothesis comp_key : forall a b, comp a b = (key a >=? key b).

Definition descending (a b : A) : Prop := key b <= key a.
Definition ascending (a b : A) : Prop := key a <= key b.

Lemma unguarded_linear_insert_ascending (val : A) (left : list A) :
  StronglySorted ascending left ->
  StronglySorted ascending (unguarded_linear_insert comp val left).
Proof.
  induction 1 as [|next before Hs IH Hf]; simpl.
  - repeat constructor.
  - rewrite comp_key. destruct (Z.geb_spec (key val) (key next)) as [Hge | Hlt].
    + constructor; [exact IH |].
      rewrite <- unguarded_linear_insert_perm.
      constructor; [exact Hge | exact Hf].
    + constructor; [constructor; assumption |].
      constructor; [unfold ascending; lia |].
      eapply Forall_impl; [| exact Hf].
      unfold ascending. intros; lia.
Qed.

Lemma insertion_step_descending (ordered : list A) (val : A) :
  StronglySorted descending ordered ->
  StronglySorted descending (insertion_step comp ordered val).
Proof.
  intros Hs. unfold insertion_step.
  destruct ordered as [|first rest]; [repeat constructor |].
  rewrite comp_key. destruct (Z.geb_spec (key val) (key first)) as [Hge | Hlt].
  - constructor; [exact Hs |].
    inversion Hs as [|? ? _ Hf]; subst.
    constructor; [exact Hge |].
    eapply Forall_impl; [| exact Hf].
    unfold descending. intros; lia.
  - apply (StronglySorted_rev ascending).
    apply unguarded_linear_insert_ascending.
    apply (StronglySorted_rev descending). exact Hs.
Qed.

Lemma insertion_loop_descending (rest ordered : list A) :
  StronglySorted descending ordered ->
  StronglySorted descending (fold_left (insertion_step comp) rest ordered).
Proof.
  revert ordered. induction rest as [|val rest IH]; intros ordered Hs; simpl.
  - exact Hs.
  - apply IH, insertion_step_descending, Hs.
Qed.

Lemma std_sort_descending (range : list A) :
  StronglySorted descending (std_sort comp range).
Proof.
  destruct range as [|first rest]; [constructor |].
  apply insertion_loop_descending. repeat constructor.
Qed.

(** Two descending arrangements of the same elements coincide when
    the key tells the elements apart. *)
Lemma descending_unique (l1 l2 : list A) :
  (forall a b, In a l1 -> In b l1 -> key a = key b -> a = b) ->
  Permutation l1 l2 ->
  StronglySorted descending l1 -> StronglySorted descending l2 ->
  l1 = l2.
Proof.
  revert l2. induction l1 as [|a l1 IH]; intros l2 Hinj Hp H1 H2.
  - apply Permutation_nil in Hp. now subst.
  - destruct l2 as [|b l2].
    + symmetry in Hp. apply Permutation_nil in Hp. discriminate.
    + inversion H1 as [|? ? Hs1 Hf1]; subst.
      inversion H2 as [|? ? Hs2 Hf2]; subst.
      rewrite Forall_forall in Hf1, Hf2.
      assert (Hb : In b (a :: l1)).
      { eapply Permutation_in; [symmetry; exact Hp | now left]. }
      assert (Ha : In a (b :: l2)).
      { eapply Permutation_in; [exact Hp | now left]. }
      assert (Hab : a = b).
      { apply Hinj; [now left | exact Hb |].
        assert (key b <= key a).
        { destruct Hb as [-> | Hb]; [lia | now apply Hf1]. }
        assert (key a <= key b).
        { destruct Ha as [-> | Ha]; [lia | now apply Hf2]. }
        lia. }
      subst b. f_equal.
      apply IH; auto.
      * intros x y Hx Hy. apply Hinj; now right.
      * eapply Permutation_cons_inv; exact Hp.
Qed.
End SortByKey.

(** ** The comparators and their first key *)

(** The key that decides a comparator: the field of its first
    [COMPARE]. *)
Definition primary_key (mode : Mode.sort_mode) : cudaDevice_t -> Z :=
  match mode with
  | Mode.memory => prop_totalGlobalMem
  | Mode.flops => flops
  | Mode.compute => prop_major
  | Mode.none => nativeId
  end.

(** The comparator [sortDevices] hands to [std::sort]. *)
Definition comparator (mode : Mode.sort_mode) : cudaDevice_t -> cudaDevice_t -> bool :=
  match mode with
  | Mode.memory => card_compare_mem
  | Mode.flops => card_compare_flops
  | Mode.compute => card_compare_compute
  | Mode.none => card_compare_num
  end.

(** The device lists on which [std_sort] is what the program runs: at
    most [S_threshold] devices, or devices that differ pairwise on the
    key the comparator reads. *)
Definition within_sort_model (key : cudaDevice_t -> Z) (devices : list cudaDevice_t) : Prop :=
  (List.length devices <= S_threshold)%nat \/ NoDup (map key devices).

Lemma sortDevices_cuDevices (mode : Mode.sort_mode) (m : DeviceManager) :
  cuDevices (sortDevices mode m) = std_sort (comparator mode) (cuDevices m).
Proof. destruct mode; reflexivity. Qed.

Lemma sortDevices_activeDev (mode : Mode.sort_mode) (m : DeviceManager) :
  activeDev (sortDevices mode m) = activeDev m.
Proof. destruct mode; reflexivity. Qed.

Lemma sortDevices_nDevices (mode : Mode.sort_mode) (m : DeviceManager) :
  nDevices (sortDevices mode m) = nDevices m.
Proof. destruct mode; reflexivity. Qed.

Lemma comparator_primary_key (mode : Mode.sort_mode) (l r : cudaDevice_t) :
  comparator mode l r = (primary_key mode l >=? primary_key mode r).
Proof. destruct mode; reflexivity. Qed.

Lemma sortDevices_perm (mode : Mode.sort_mode) (m : DeviceManager) :
  Permutation (cuDevices m) (cuDevices (sortDevices mode m)).
Proof. rewrite sortDevices_cuDevices. apply std_sort_perm. Qed.

Lemma sortDevices_sorted (mode : Mode.sort_mode) (m : DeviceManager) :
  StronglySorted (descending (primary_key mode)) (cuDevices (sortDevices mode m)).
Proof.
  rewrite sortDevices_cuDevices.
  apply std_sort_descending, comparator_primary_key.
Qed.

Lemma sortDevices_size (mode : Mode.sort_mode) (m : DeviceManager) :
  vector_size (cuDevices (sortDevices mode m)) = vector_size (cuDevices m).
Proof.
  unfold vector_size. f_equal. symmetry.
  apply Permutation_length, sortDevices_perm.
Qed.

(** ** Discovery *)

(** The descriptor the constructor's loop builds at index [i]. *)
Definition discovered_device (P : Platform) (i : Z) : cudaDevice_t :=
  {| prop := cudaGetDeviceProperties P i;
     flops := device_flops (cudaGetDeviceProperties P i);
     nativeId := i |}.

(** The vector as the loop leaves it, before [sortDevices] runs. *)
Definition discovered (P : Platform) (n : nat) : list cudaDevice_t :=
  discovery_loop P n 0 [].

Lemma discovery_loop_acc (P : Platform) (turns : nat) :
  forall (i : Z) (devices : list cudaDevice_t),
    discovery_loop P turns i devices = devices ++ discovery_loop P turns i [].
Proof.
  induction turns as [|turns IH]; intros i devices; simpl.
  - now rewrite app_nil_r.
  - rewrite (IH (i + 1) (devices ++ _)), (IH (i + 1) [_]).
    now rewrite <- app_assoc.
Qed.

Lemma discovery_loop_succ (P : Platform) (turns : nat) (i : Z) :
  discovery_loop P (S turns) i [] =
  discovered_device P i :: discovery_loop P turns (i + 1) [].
Proof. simpl. now rewrite discovery_loop_acc. Qed.

Lemma discovery_loop_length (P : Platform) (turns : nat) :
  forall i, List.length (discovery_loop P turns i []) = turns.
Proof.
  induction turns as [|turns IH]; intros i; [reflexivity |].
  rewrite discovery_loop_succ. simpl. now rewrite IH.
Qed.

Lemma discovery_loop_nth (P : Platform) (turns : nat) :
  forall (i : Z) (k : nat), (k < turns)%nat ->
    nth_error (discovery_loop P turns i []) k =
    Some (discovered_device P (i + Z.of_nat k)).
Proof.
  induction turns as [|turns IH]; intros i k Hk; [lia |].
  rewrite discovery_loop_succ. destruct k as [|k]; simpl nth_error.
  - do 2 f_equal. lia.
  - rewrite IH by lia. do 2 f_equal. lia.
Qed.

Lemma discovery_loop_In (P : Platform) (turns : nat) :
  forall (i : Z) (d : cudaDevice_t),
    In d (discovery_loop P turns i []) ->
    d = discovered_device P (nativeId d) /\ i <= nativeId d < i + Z.of_nat turns.
Proof.
  induction turns as [|turns IH]; intros i d Hd; [contradiction |].
  rewrite discovery_loop_succ in Hd. destruct Hd as [<- | Hd].
  - simpl. split; [reflexivity | lia].
  - apply IH in Hd. destruct Hd as [Heq Hr]. split; [exact Heq | lia].
Qed.

Lemma discovery_loop_ascending (P : Platform) (turns : nat) :
  forall i, StronglySorted (ascending nativeId) (discovery_loop P turns i []).
Proof.
  induction turns as [|turns IH]; intros i; [constructor |].
  rewrite discovery_loop_succ. constructor; [apply IH |].
  rewrite Forall_forall. intros d Hd. apply discovery_loop_In in Hd.
  unfold ascending. simpl. lia.
Qed.

Lemma discovered_nativeId_inj (P : Platform) (n : nat) (a b : cudaDevice_t) :
  In a (discovered P n) -> In b (discovered P n) ->
  nativeId a = nativeId b -> a = b.
Proof.
  intros Ha Hb Heq.
  apply discovery_loop_In in Ha. apply discovery_loop_In in Hb.
  destruct Ha as [-> _], Hb as [-> _]. simpl in Heq. now rewrite Heq.
Qed.

(** ** Fixtures *)

Definition simulated_prop (mem : N) : cudaDeviceProp :=
  {| name := "Simulated"; totalGlobalMem := mem;
     major := 3; minor := 5; multiProcessorCount := 15; clockRate := 745 |}.

(** A platform of [n] identical devices whose [cudaSetDevice] accepts
    the ordinals below [n] and no other, as the CUDA runtime does. *)
Definition uniform_platform (n : Z) : Platform :=
  {| cudaGetDeviceCount := (cudaSuccess, n);
     cudaGetDeviceProperties := fun _ => simulated_prop 3145729;
     cudaSetDevice := fun d =>
       if (0 <=? d) && (d <? n) then cudaSuccess else cudaErrorInvalidDevice |}.

(** The same devices behind a native layer that accepts every ordinal
    (a test double). *)
Definition lenient_platform (n : Z) : Platform :=
  {| cudaGetDeviceCount := (cudaSuccess, n);
     cudaGetDeviceProperties := fun _ => simulated_prop 3145729;
     cudaSetDevice := fun _ => cudaSuccess |}.

Definition manager_of (devices : list cudaDevice_t) : DeviceManager :=
  {| cuDevices := devices; activeDev := 0; nDevices := vector_size devices |}.

(* ================================================================= *)
(** * The claims *)

(** ** C1: the order [sortDevices] produces *)

(** Two devices that agree on every key but [nativeId]. *)
Definition twins : DeviceManager := manager_of (discovered (uniform_platform 2) 2).

(** C1, counterexample.  The two devices of [twins] are equal on
    architecture, throughput score and memory and carry the native ids
    0 and 1, in this order.  The claim asks every mode to leave them in
    ascending [nativeId] order; each mode returns them with native id 1
    first. *)
Lemma sortDevices_ascending_nativeId_counterexample :
  map nativeId (cuDevices twins) = [0; 1] /\
  map nativeId (cuDevices (sortDevices Mode.none twins)) = [1; 0] /\
  map nativeId (cuDevices (sortDevices Mode.flops twins)) = [1; 0] /\
  map nativeId (cuDevices (sortDevices Mode.memory twins)) = [1; 0] /\
  map nativeId (cuDevices (sortDevices Mode.compute twins)) = [1; 0] /\
  ~ StronglySorted (ascending nativeId) (cuDevices (sortDevices Mode.none twins)).
Proof.
  repeat split; try reflexivity.
  intros H. inversion H as [|? ? _ Hf]; subst.
  inversion Hf as [|? ? Hle _]; subst.
  unfold ascending in Hle. simpl in Hle. lia.
Qed.

(** C1, as amended.  For every ranking mode and every device list of
    at most sixteen devices, or of any length when its devices differ
    pairwise on the mode's first key, [sortDevices] rearranges the
    devices (nothing is lost or added) and leaves them in descending
    order of the mode's first key: architecture major for [compute],
    throughput score for [flops], total memory for [memory], [nativeId]
    for [none].  No comparison is ascending, [nativeId] included.  The
    active position and the device count are untouched. *)
Theorem sortDevices_descending_primary_key (mode : Mode.sort_mode) (m : DeviceManager)
    (Hmodel : within_sort_model (primary_key mode) (cuDevices m)) :
  Permutation (cuDevices m) (cuDevices (sortDevices mode m)) /\
  StronglySorted (descending (primary_key mode)) (cuDevices (sortDevices mode m)) /\
  (forall (i j : nat) (a b : cudaDevice_t),
      nth_error (cuDevices (sortDevices mode m)) i = Some a ->
      nth_error (cuDevices (sortDevices mode m)) j = Some b ->
      (i < j)%nat -> primary_key mode b <= primary_key mode a) /\
  activeDev (sortDevices mode m) = activeDev m /\
  nDevices (sortDevices mode m) = nDevices m.
Proof.
  repeat split.
  - apply sortDevices_perm.
  - apply sortDevices_sorted.
  - intros i j a b Hi Hj Hlt.
    exact (StronglySorted_nth _ _ (sortDevices_sorted mode m) i j a b Hi Hj Hlt).
  - apply sortDevices_activeDev.
  - apply sortDevices_nDevices.
Qed.

Lemma sortDevices_descending_primary_key_witness :
  nth_error (cuDevices (sortDevices Mode.none twins)) 0 =
    Some (discovered_device (uniform_platform 2) 1) /\
  nth_error (cuDevices (sortDevices Mode.none twins)) 1 =
    Some (discovered_device (uniform_platform 2) 0) /\
  primary_key Mode.none (discovered_device (uniform_platform 2) 0) <=
  primary_key Mode.none (discovered_device (uniform_platform 2) 1).
Proof.
  split; [reflexivity |]. split; [reflexivity |].
  assert (Hmodel : within_sort_model (primary_key Mode.none) (cuDevices twins)).
  { left. unfold S_threshold. simpl. lia. }
  destruct (sortDevices_descending_primary_key Mode.none twins Hmodel)
    as (_ & _ & Hpos & _).
  apply (Hpos 0%nat 1%nat); [reflexivity | reflexivity | lia].
Defined.

(** ** C2: the [none] mode *)

(** C2, counterexample.  Two devices in discovery order (native ids 0
    then 1): [sortDevices(none)] hands them back as 1 then 0, which is
    not the discovery order. *)
Lemma sortDevices_none_counterexample :
  cuDevices twins = discovered (uniform_platform 2) 2 /\
  map nativeId (discovered (uniform_platform 2) 2) = [0; 1] /\
  map nativeId (cuDevices (sortDevices Mode.none twins)) = [1; 0] /\
  cuDevices (sortDevices Mode.none twins) <> discovered (uniform_platform 2) 2.
Proof.
  repeat split. intros H.
  apply (f_equal (map nativeId)) in H. discriminate H.
Qed.

(** C2, as amended.  For every device list that holds the discovered
    devices in some order (whatever sort was applied before),
    [sortDevices] in the [none] mode orders the devices by [nativeId]
    alone, descending: the list comes out as the reverse of the native
    discovery order. *)
Theorem sortDevices_none_reverse_discovery
    (P : Platform) (n : nat) (m : DeviceManager)
    (Hdevices : Permutation (discovered P n) (cuDevices m)) :
  cuDevices (sortDevices Mode.none m) = rev (discovered P n) /\
  StronglySorted (descending nativeId) (cuDevices (sortDevices Mode.none m)).
Proof.
  split; [| apply (sortDevices_sorted Mode.none)].
  symmetry. apply (descending_unique nativeId).
  - intros a b Ha Hb. apply in_rev in Ha. apply in_rev in Hb.
    now apply (discovered_nativeId_inj P n).
  - rewrite <- Permutation_rev, Hdevices. apply sortDevices_perm.
  - apply (StronglySorted_rev (ascending nativeId)), discovery_loop_ascending.
  - apply (sortDevices_sorted Mode.none).
Qed.

Lemma sortDevices_none_reverse_discovery_witness :
  cuDevices (sortDevices Mode.none
               (sortDevices Mode.flops (manager_of (discovered (uniform_platform 3) 3)))) =
  rev (discovered (uniform_platform 3) 3).
Proof.
  apply (sortDevices_none_reverse_discovery (uniform_platform 3) 3
           (sortDevices Mode.flops (manager_of (discovered (uniform_platform 3) 3)))).
  exact (sortDevices_perm Mode.flops (manager_of (discovered (uniform_platform 3) 3))).
Defined.

(** ** The registry invariant and [setActiveDevice] *)

Definition registry_invariant (m : DeviceManager) : Prop :=
  0 <= activeDev m < vector_size (cuDevices m).

(** What the constructor establishes: the count is a positive [int],
    it is the length of the vector, and the active position is inside. *)
Definition well_formed (m : DeviceManager) : Prop :=
  nDevices m = vector_size (cuDevices m) /\
  0 < nDevices m <= INT_MAX /\
  registry_invariant m.

Lemma CUDA_outcome (err : cudaError_t) :
  CUDA err = Returns tt /\ err = cudaSuccess \/ CUDA err = Exits /\ err <> cudaSuccess.
Proof. destruct err; [left | right ..]; split; (reflexivity || discriminate). Qed.

Lemma vector_size_int {A : Type} (v : list A) :
  vector_size v <= INT_MAX -> to_int (vector_size v) = vector_size v.
Proof.
  intros H. apply to_int_small. unfold in_int, INT_MIN, vector_size in *. lia.
Qed.

(** Past the guard everything rests on the native call. *)
Lemma setActiveDevice_within_guard (P : Platform) (device : Z) (m : DeviceManager) :
  device <= to_int (vector_size (cuDevices m)) ->
  setActiveDevice P device m =
  (CUDA (cudaSetDevice P device) ;;; Returns (activeDev m, with_activeDev m device)).
Proof.
  intros H. unfold setActiveDevice.
  destruct (Z.gtb_spec device (to_int (vector_size (cuDevices m)))); [lia | reflexivity].
Qed.

Lemma setActiveDevice_beyond_guard (P : Platform) (device : Z) (m : DeviceManager) :
  to_int (vector_size (cuDevices m)) < device ->
  setActiveDevice P device m = Returns (-1, m).
Proof.
  intros H. unfold setActiveDevice.
  destruct (Z.gtb_spec device (to_int (vector_size (cuDevices m)))); [reflexivity | lia].
Qed.

Lemma setActiveDevice_cuDevices (P : Platform) (device : Z) (m m' : DeviceManager) (r : Z) :
  setActiveDevice P device m = Returns (r, m') ->
  cuDevices m' = cuDevices m /\ nDevices m' = nDevices m.
Proof.
  unfold setActiveDevice.
  destruct (device >? to_int (vector_size (cuDevices m))).
  - intros [= _ <-]. split; reflexivity.
  - destruct (CUDA_outcome (cudaSetDevice P device)) as [[-> _] | [-> _]]; simpl.
    + intros [= _ <-]. split; reflexivity.
    + discriminate.
Qed.

Lemma with_activeDev_restore (m : DeviceManager) (device : Z) :
  with_activeDev (with_activeDev m device) (activeDev m) = m.
Proof. destruct m; reflexivity. Qed.

(** Sorting keeps a well-formed registry well formed. *)
Lemma sortDevices_well_formed (mode : Mode.sort_mode) (m : DeviceManager) :
  well_formed m -> well_formed (sortDevices mode m).
Proof.
  unfold well_formed, registry_invariant.
  rewrite sortDevices_size, sortDevices_activeDev, sortDevices_nDevices. tauto.
Qed.

(** ** C3: positions outside the range *)

(** A registry of one device, as the constructor builds it. *)
Definition single : DeviceManager :=
  manager_of (discovered (lenient_platform 1) 1).

(** C3.  On a runtime whose [cudaSetDevice] accepts no ordinal outside
    [0, count), the invariant [0 <= activeDev < len(devices)] of a
    well-formed registry is kept by every operation.  For every
    position outside [0, len(devices)), [setActiveDevice] fails: above
    the length it returns -1 and the registry is the one it was, at the
    length and below zero the native call is refused and the process
    ends before the active position is written.  Whenever
    [setActiveDevice] returns, and after every [sortDevices] (on at
    most sixteen devices, or on devices that differ pairwise on the
    mode's first key), the registry is well formed again. *)
Theorem setActiveDevice_keeps_invariant
    (P : Platform) (m : DeviceManager) (position : Z)
    (Hrejects : forall d, cudaSetDevice P d = cudaSuccess ->
                          0 <= d < snd (cudaGetDeviceCount P))
    (Hcount : getDeviceCount m = snd (cudaGetDeviceCount P))
    (Hwf : well_formed m) :
  (~ (0 <= position < vector_size (cuDevices m)) ->
   (setActiveDevice P position m = Exits \/
    setActiveDevice P position m = Returns (-1, m)) /\
   (forall r m', setActiveDevice P position m = Returns (r, m') ->
                 activeDev m' = activeDev m)) /\
  (forall r m', setActiveDevice P position m = Returns (r, m') ->
                0 <= activeDev m' < vector_size (cuDevices m') /\ well_formed m') /\
  (forall mode,
      within_sort_model (primary_key mode) (cuDevices m) ->
      0 <= activeDev (sortDevices mode m) < vector_size (cuDevices (sortDevices mode m)) /\
      well_formed (sortDevices mode m)).
Proof.
  pose proof Hwf as (Hnd & Hrange & Hinv).
  unfold getDeviceCount, registry_invariant in *.
  assert (Hint : to_int (vector_size (cuDevices m)) = vector_size (cuDevices m)).
  { apply vector_size_int. lia. }
  assert (Hcases :
    (vector_size (cuDevices m) < position /\
     setActiveDevice P position m = Returns (-1, m)) \/
    (position <= vector_size (cuDevices m) /\
     cudaSetDevice P position <> cudaSuccess /\
     setActiveDevice P position m = Exits) \/
    (0 <= position < vector_size (cuDevices m) /\
     setActiveDevice P position m = Returns (activeDev m, with_activeDev m position))).
  { destruct (Z.lt_ge_cases (vector_size (cuDevices m)) position) as [Hgt | Hle].
    - left. split; [exact Hgt |]. apply setActiveDevice_beyond_guard. lia.
    - right. rewrite setActiveDevice_within_guard by lia.
      destruct (CUDA_outcome (cudaSetDevice P position)) as [[Hrun Hok] | [Hrun Hfail]];
        rewrite Hrun; simpl.
      + right. split; [| reflexivity]. apply Hrejects in Hok. lia.
      + left. repeat split; assumption. }
  split; [| split].
  - intros Hout. destruct Hcases as [[_ Hret] | [(_ & _ & Hex) | [Hin _]]]; [| | lia].
    + split; [now right |]. intros r m' H. rewrite Hret in H. now injection H as _ <-.
    + split; [now left |]. intros r m' H. rewrite Hex in H. discriminate.
  - intros r m' H.
    destruct Hcases as [[_ Hret] | [(_ & _ & Hex) | [Hin Hret]]]; rewrite ?Hret, ?Hex in H.
    + injection H as _ <-. split; [exact Hinv | exact Hwf].
    + discriminate.
    + injection H as _ <-. simpl.
      split; [exact Hin |]. unfold well_formed, registry_invariant. simpl. tauto.
  - intros mode _. pose proof (sortDevices_well_formed mode m Hwf) as Hwf'.
    split; [exact (proj2 (proj2 Hwf')) | exact Hwf'].
Qed.

Lemma setActiveDevice_keeps_invariant_witness :
  (setActiveDevice (uniform_platform 3) 3 (manager_of (discovered (uniform_platform 3) 3)) =
     Exits \/
   setActiveDevice (uniform_platform 3) 3 (manager_of (discovered (uniform_platform 3) 3)) =
     Returns (-1, manager_of (discovered (uniform_platform 3) 3))) /\
  (forall r m',
      setActiveDevice (uniform_platform 3) 3 (manager_of (discovered (uniform_platform 3) 3)) =
        Returns (r, m') ->
      activeDev m' = activeDev (manager_of (discovered (uniform_platform 3) 3))).
Proof.
  refine (proj1 (setActiveDevice_keeps_invariant (uniform_platform 3)
                   (manager_of (discovered (uniform_platform 3) 3)) 3 _ _ _) _).
  - intros d. simpl.
    destruct (Z.leb_spec 0 d), (Z.ltb_spec d 3); simpl; (lia || discriminate).
  - reflexivity.
  - unfold well_formed, registry_invariant.
    repeat split; vm_compute; (reflexivity || discriminate).
  - vm_compute. intros [_ H]. discriminate H.
Defined.

(** The length and -1 on a registry of one device: both end the
    process inside the [CUDA] macro. *)
Lemma setActiveDevice_native_rejection :
  setActiveDevice (uniform_platform 1) 1 single = Exits /\
  setActiveDevice (uniform_platform 1) (-1) single = Exits.
Proof. split; reflexivity. Qed.

(** ** C4: switching and switching back *)

(** C4.  On a well-formed registry, for every valid position [p] for
    which the native switch succeeds: [setActiveDevice p] returns the
    position that was active and makes [p] the active one, so that
    [getActiveDeviceId] then answers [p]; calling [setActiveDevice]
    again with the returned value (the native switch succeeding again)
    returns [p] and gives back the registry exactly as it was. *)
Theorem setActiveDevice_round_trip
    (P : Platform) (m : DeviceManager) (p : Z)
    (Hwf : well_formed m)
    (Hp : 0 <= p < getDeviceCount m)
    (Hnative : cudaSetDevice P p = cudaSuccess)
    (Hnative_back : cudaSetDevice P (getActiveDeviceId m) = cudaSuccess) :
  exists m' : DeviceManager,
    setActiveDevice P p m = Returns (getActiveDeviceId m, m') /\
    getActiveDeviceId m' = p /\
    cuDevices m' = cuDevices m /\
    well_formed m' /\
    setActiveDevice P (getActiveDeviceId m) m' = Returns (p, m).
Proof.
  destruct Hwf as (Hn & Hrange & Hinv).
  unfold getDeviceCount, getActiveDeviceId, registry_invariant in *.
  assert (Hsize : to_int (vector_size (cuDevices m)) = vector_size (cuDevices m)).
  { apply vector_size_int. lia. }
  exists (with_activeDev m p). repeat split; simpl; try lia.
  - rewrite setActiveDevice_within_guard by lia.
    rewrite Hnative. reflexivity.
  - rewrite setActiveDevice_within_guard by (simpl; lia).
    rewrite Hnative_back. simpl. now rewrite with_activeDev_restore.
Qed.

Lemma setActiveDevice_round_trip_witness :
  exists m' : DeviceManager,
    setActiveDevice (uniform_platform 3) 2 (manager_of (discovered (uniform_platform 3) 3)) =
      Returns (0, m') /\
    getActiveDeviceId m' = 2 /\
    cuDevices m' = discovered (uniform_platform 3) 3 /\
    well_formed m' /\
    setActiveDevice (uniform_platform 3) 0 m' =
      Returns (2, manager_of (discovered (uniform_platform 3) 3)).
Proof.
  apply (setActiveDevice_round_trip (uniform_platform 3)
           (manager_of (discovered (uniform_platform 3) 3)) 2).
  - unfold well_formed, registry_invariant.
    repeat split; vm_compute; (reflexivity || discriminate).
  - split; vm_compute; (reflexivity || discriminate).
  - reflexivity.
  - reflexivity.
Defined.

(** ** C5: construction *)

(** The manager on which the constructor calls [sortDevices]. *)
Definition populated (P : Platform) (count : Z) : DeviceManager :=
  {| cuDevices := discovered P (Z.to_nat count); activeDev := 0; nDevices := count |}.

Lemma populated_size (P : Platform) (count : Z) :
  0 <= count -> vector_size (cuDevices (populated P count)) = count.
Proof.
  intros H. unfold vector_size, populated, discovered. simpl.
  rewrite discovery_loop_length. lia.
Qed.

(** Every way the constructor can end, by what the runtime answers. *)
Lemma DeviceManager_ctor_cases (P : Platform) (default_mode : Mode.sort_mode) :
  let err := fst (cudaGetDeviceCount P) in
  let count := snd (cudaGetDeviceCount P) in
  DeviceManager_ctor P default_mode =
  if cudaError_eqb cudaSuccess err then
    if count =? 0 then Throws "No CUDA-Capable devices found"
    else if count <? 0 then Throws "vector::reserve"
    else r <- setActiveDevice P 0 (sortDevices default_mode (populated P count)) ;;
         Returns (snd r)
  else Exits.
Proof.
  unfold DeviceManager_ctor, CUDA, vector_reserve, populated, discovered.
  destruct (cudaGetDeviceCount P) as [err count]. simpl.
  destruct err; simpl; try reflexivity.
  destruct (count =? 0); [reflexivity |].
  destruct (count <? 0); reflexivity.
Qed.

Lemma DeviceManager_ctor_nonempty (P : Platform) (default_mode : Mode.sort_mode)
    (m : DeviceManager) :
  DeviceManager_ctor P default_mode = Returns m -> cuDevices m <> [].
Proof.
  rewrite DeviceManager_ctor_cases.
  destruct (cudaError_eqb _ _); [| discriminate].
  destruct (Z.eqb_spec (snd (cudaGetDeviceCount P)) 0) as [| Hnz]; [discriminate |].
  destruct (Z.ltb_spec (snd (cudaGetDeviceCount P)) 0) as [| Hpos]; [discriminate |].
  set (count := snd (cudaGetDeviceCount P)) in *. clearbody count.
  destruct (setActiveDevice P 0 (sortDevices default_mode (populated P count)))
    as [[r m'] | | |] eqn:Hset; simpl; try discriminate.
  intros [= <-]. apply setActiveDevice_cuDevices in Hset. destruct Hset as [Hdev _].
  intros Hnil.
  assert (Hsize : vector_size (cuDevices m') = count).
  { rewrite Hdev, sortDevices_size. apply populated_size. lia. }
  rewrite Hnil in Hsize. unfold vector_size in Hsize. simpl in Hsize. lia.
Qed.

(** What a manager that came out of the constructor holds. *)
Lemma DeviceManager_ctor_returns (P : Platform) (default_mode : Mode.sort_mode)
    (m : DeviceManager) :
  DeviceManager_ctor P default_mode = Returns m ->
  exists n, cudaGetDeviceCount P = (cudaSuccess, n) /\ 0 < n /\
            Permutation (discovered P (Z.to_nat n)) (cuDevices m) /\
            nDevices m = n.
Proof.
  rewrite DeviceManager_ctor_cases.
  destruct (cudaGetDeviceCount P) as [err count]. simpl.
  destruct err; simpl; try discriminate.
  destruct (Z.eqb_spec count 0) as [| Hnz]; [discriminate |].
  destruct (Z.ltb_spec count 0) as [| Hpos]; [discriminate |].
  destruct (setActiveDevice P 0 (sortDevices default_mode (populated P count)))
    as [[r m'] | | |] eqn:Hset; simpl; try discriminate.
  intros [= <-]. apply setActiveDevice_cuDevices in Hset. destruct Hset as [Hdev Hnd].
  exists count. repeat split; try lia.
  - rewrite Hdev. apply (sortDevices_perm default_mode (populated P count)).
  - rewrite Hnd. apply sortDevices_nDevices.
Qed.

(** C5.  When the runtime reports zero devices the constructor throws
    the no-device error; whatever the runtime answers, a manager that
    comes out of the constructor has a non-empty device list.  When the
    runtime reports a positive count [n] (an [int]), the loop populates
    exactly [n] descriptors, the one at index [i] carrying the
    descriptor of device [i], [nativeId = i] and the throughput score
    (units x cores per unit x clock, in [int] arithmetic); every
    manager the constructor returns holds these [n] descriptors with
    position 0 active.  And the constructor does return one, well
    formed, when the native switch to device 0 succeeds and the device
    list is one the sort is modelled on (at most sixteen devices, or
    pairwise distinct values of the default mode's first key). *)
Theorem DeviceManager_ctor_discovery (P : Platform) (default_mode : Mode.sort_mode) :
  (cudaGetDeviceCount P = (cudaSuccess, 0) ->
   DeviceManager_ctor P default_mode = Throws "No CUDA-Capable devices found") /\
  (forall m, DeviceManager_ctor P default_mode = Returns m -> cuDevices m <> []) /\
  (forall n, cudaGetDeviceCount P = (cudaSuccess, n) -> 0 < n <= INT_MAX ->
     List.length (discovered P (Z.to_nat n)) = Z.to_nat n /\
     (forall i, 0 <= i < n ->
        nth_error (discovered P (Z.to_nat n)) (Z.to_nat i) =
        Some {| prop := cudaGetDeviceProperties P i;
                flops := int_mul
                           (int_mul (multiProcessorCount (cudaGetDeviceProperties P i))
                                    (compute2cores (major (cudaGetDeviceProperties P i))
                                                   (minor (cudaGetDeviceProperties P i))))
                           (clockRate (cudaGetDeviceProperties P i));
                nativeId := i |}) /\
     (forall m, DeviceManager_ctor P default_mode = Returns m ->
                Permutation (discovered P (Z.to_nat n)) (cuDevices m) /\
                getDeviceCount m = n /\
                getActiveDeviceId m = 0) /\
     (within_sort_model (primary_key default_mode) (discovered P (Z.to_nat n)) ->
      cudaSetDevice P 0 = cudaSuccess ->
      exists m, DeviceManager_ctor P default_mode = Returns m /\
                Permutation (discovered P (Z.to_nat n)) (cuDevices m) /\
                getDeviceCount m = n /\
                getActiveDeviceId m = 0 /\
                well_formed m)) /\
  map (fun d => (nativeId d, flops d)) (discovered (uniform_platform 2) 2) =
    [(0, 15 * 192 * 745); (1, 15 * 192 * 745)].
Proof.
  split; [| split; [| split]].
  - intros Hcount. rewrite DeviceManager_ctor_cases, Hcount. reflexivity.
  - apply DeviceManager_ctor_nonempty.
  - intros n Hcount Hn. split; [apply discovery_loop_length |]. split; [| split].
    + intros i Hi. unfold discovered.
      rewrite discovery_loop_nth by lia.
      replace (0 + Z.of_nat (Z.to_nat i)) with i by lia. reflexivity.
    + intros m Hm.
      pose proof (DeviceManager_ctor_returns P default_mode m Hm)
        as (n' & Hcount' & _ & Hperm & Hnd).
      rewrite Hcount in Hcount'. injection Hcount' as <-.
      repeat split; [exact Hperm | exact Hnd |].
      revert Hm. rewrite DeviceManager_ctor_cases, Hcount. simpl.
      destruct (Z.eqb_spec n 0); [lia |]. destruct (Z.ltb_spec n 0); [lia |].
      unfold setActiveDevice.
      destruct (0 >? to_int (vector_size (cuDevices (sortDevices default_mode (populated P n))))).
      * simpl. intros [= <-]. apply sortDevices_activeDev.
      * destruct (CUDA (cudaSetDevice P 0)); simpl; try discriminate.
        intros [= <-]. reflexivity.
    + intros _ Hnative.
      pose (m := sortDevices default_mode (populated P n)).
      assert (Hsize : vector_size (cuDevices m) = n).
      { unfold m. rewrite sortDevices_size. apply populated_size. lia. }
      assert (Hact : activeDev m = 0) by apply sortDevices_activeDev.
      assert (Hnd : nDevices m = n) by apply sortDevices_nDevices.
      exists (with_activeDev m 0).
      rewrite DeviceManager_ctor_cases, Hcount. simpl.
      destruct (Z.eqb_spec n 0); [lia |].
      destruct (Z.ltb_spec n 0); [lia |].
      fold m. rewrite setActiveDevice_within_guard
        by (rewrite vector_size_int; lia).
      rewrite Hnative. simpl. repeat split; simpl; try lia.
      apply (sortDevices_perm default_mode (populated P n)).
  - reflexivity.
Qed.

Lemma DeviceManager_ctor_discovery_witness :
  DeviceManager_ctor (uniform_platform 0) Mode.flops =
    Throws "No CUDA-Capable devices found" /\
  exists m, DeviceManager_ctor (uniform_platform 3) Mode.flops = Returns m /\
            Permutation (discovered (uniform_platform 3) 3) (cuDevices m) /\
            getDeviceCount m = 3 /\
            getActiveDeviceId m = 0 /\
            well_formed m.
Proof.
  split.
  - apply (proj1 (DeviceManager_ctor_discovery (uniform_platform 0) Mode.flops)).
    reflexivity.
  - refine (proj2 (proj2 (proj2 (proj1 (proj2 (proj2
             (DeviceManager_ctor_discovery (uniform_platform 3) Mode.flops))) 3 _ _))) _ _).
    + reflexivity.
    + split; vm_compute; (reflexivity || discriminate).
    + left. unfold S_threshold. simpl. lia.
    + reflexivity.
Defined.

(** Every device of a constructed registry is the descriptor the loop
    built for its native id. *)
Lemma DeviceManager_ctor_device (P : Platform) (default_mode : Mode.sort_mode)
    (m : DeviceManager) (d : cudaDevice_t) :
  DeviceManager_ctor P default_mode = Returns m ->
  In d (cuDevices m) ->
  d = discovered_device P (nativeId d).
Proof.
  intros Hctor Hd. apply DeviceManager_ctor_returns in Hctor.
  destruct Hctor as (n & _ & _ & Hperm & _).
  apply (Permutation_in _ (Permutation_sym Hperm)) in Hd.
  now apply discovery_loop_In in Hd.
Qed.

Lemma DeviceManager_ctor_flops (P : Platform) (default_mode : Mode.sort_mode)
    (m : DeviceManager) (d : cudaDevice_t) :
  DeviceManager_ctor P default_mode = Returns m ->
  In d (cuDevices m) ->
  flops d = device_flops (prop d).
Proof.
  intros Hctor Hd.
  rewrite (DeviceManager_ctor_device P default_mode m d Hctor Hd). reflexivity.
Qed.

(** ** C6: the throughput score *)

(** The product the score stands for, in unbounded integers. *)
Definition score_product (p : cudaDeviceProp) : Z :=
  multiProcessorCount p * compute2cores (major p) (minor p) * clockRate p.

Lemma device_flops_wraps (p : cudaDeviceProp) :
  device_flops p = to_int (score_product p).
Proof. apply int_mul_assoc_exact. Qed.

(** The three simulated devices: (3.5, 15 units, 745), (5.0, 20 units,
    1000), (2.0, 8 units, 1500), with 4, 8 and 2 GB of memory. *)
Definition scenario_prop (i : Z) : cudaDeviceProp :=
  if i =? 0 then
    {| name := "device0"; totalGlobalMem := 4 * 1024 * 1024 * 1024;
       major := 3; minor := 5; multiProcessorCount := 15; clockRate := 745 |}
  else if i =? 1 then
    {| name := "device1"; totalGlobalMem := 8 * 1024 * 1024 * 1024;
       major := 5; minor := 0; multiProcessorCount := 20; clockRate := 1000 |}
  else
    {| name := "device2"; totalGlobalMem := 2 * 1024 * 1024 * 1024;
       major := 2; minor := 0; multiProcessorCount := 8; clockRate := 1500 |}.

Definition scenario : Platform :=
  {| cudaGetDeviceCount := (cudaSuccess, 3);
     cudaGetDeviceProperties := scenario_prop;
     cudaSetDevice := fun d =>
       if (0 <=? d) && (d <? 3) then cudaSuccess else cudaErrorInvalidDevice |}.

(** The second scenario device with its clock in kilohertz, the unit
    of [cudaDeviceProp::clockRate]. *)
Definition maxwell_kHz : cudaDeviceProp :=
  {| name := "device1"; totalGlobalMem := 8 * 1024 * 1024 * 1024;
     major := 5; minor := 0; multiProcessorCount := 20; clockRate := 1000000 |}.

(** C6, counterexample.  On the three simulated devices the [flops]
    mode puts the device with native id 1 first (score 2,560,000), then
    0 (2,145,600), then 2 (384,000): not the order 2, 0, 1 of the
    claim.  And the score is not the product for every device: 20 units
    of 128 cores at 1,000,000 kHz make 2,560,000,000, which no [int]
    holds; the score stored is -1,734,967,296. *)
Lemma throughput_order_counterexample :
  map (fun d => (nativeId d, flops d))
      (cuDevices (sortDevices Mode.flops (populated scenario 3))) =
    [(1, 2560000); (0, 2145600); (2, 384000)] /\
  map nativeId (cuDevices (sortDevices Mode.flops (populated scenario 3))) <> [2; 0; 1] /\
  score_product maxwell_kHz = 2560000000 /\
  device_flops maxwell_kHz = -1734967296 /\
  device_flops maxwell_kHz <> score_product maxwell_kHz.
Proof.
  repeat split; try reflexivity; vm_compute; discriminate.
Qed.

(** C6, as amended.  For every device of a constructed registry whose
    product (parallel-unit count) x (cores per unit, looked up from the
    architecture revision) x (clock rate) fits a 32-bit [int], the
    throughput score equals that product.  Consequently, for the three
    simulated devices (3.5, 15 units, 745), (5.0, 20 units, 1000),
    (2.0, 8 units, 1500), the registry built with the [flops] mode, and
    any later [sortDevices(flops)], orders them device1 (2,560,000)
    before device0 (2,145,600) before device2 (384,000). *)
Theorem throughput_score
    (P : Platform) (default_mode : Mode.sort_mode) (m : DeviceManager) (d : cudaDevice_t)
    (Hctor : DeviceManager_ctor P default_mode = Returns m)
    (Hd : In d (cuDevices m))
    (Hfit : in_int (score_product (prop d))) :
  flops d =
    multiProcessorCount (prop d) * compute2cores (major (prop d)) (minor (prop d)) *
    clockRate (prop d) /\
  (exists m3, DeviceManager_ctor scenario Mode.flops = Returns m3 /\
     map (fun d => (nativeId d, flops d)) (cuDevices m3) =
       [(1, 2560000); (0, 2145600); (2, 384000)] /\
     map (fun d => (nativeId d, flops d)) (cuDevices (sortDevices Mode.flops m3)) =
       [(1, 2560000); (0, 2145600); (2, 384000)]).
Proof.
  split.
  - fold (score_product (prop d)).
    rewrite <- (to_int_small _ Hfit), <- device_flops_wraps.
    exact (DeviceManager_ctor_flops P default_mode m d Hctor Hd).
  - eexists. split; [reflexivity |]. split; reflexivity.
Qed.

Lemma throughput_score_witness :
  flops (discovered_device scenario 1) = 20 * 128 * 1000.
Proof.
  refine (proj1 (throughput_score scenario Mode.flops
                   (with_activeDev (sortDevices Mode.flops (populated scenario 3)) 0)
                   (discovered_device scenario 1) _ _ _)).
  - reflexivity.
  - left. reflexivity.
  - split; vm_compute; discriminate.
Defined.

(** ** C7: the device summary line *)

Local Open Scope string_scope.

(** The line [getDeviceInfo] assembles from the position, the
    descriptor and the active flag. *)
Definition summary_line (device : Z) (dev : cudaDeviceProp) (show_braces : bool) : string :=
  (if show_braces then "[" else "-") ++ toString_int device ++
  (if show_braces then "]" else "-") ++ " " ++
  name dev ++ ", " ++
  toString_size_t (megabytes (totalGlobalMem dev)) ++ " MB" ++ ", " ++
  "CUDA Compute " ++ toString_int (major dev) ++ "." ++ toString_int (minor dev) ++
  newline.

Lemma string_app_assoc (a b c : string) : (a ++ b) ++ c = a ++ b ++ c.
Proof. induction a as [|ch a IH]; simpl; [reflexivity | now rewrite IH]. Qed.

Lemma getDeviceInfo_summary_line (m : DeviceManager) (device : Z) :
  getDeviceInfo m device =
  (dev <- getDeviceProp m device ;;
   Returns (summary_line device dev (getActiveDeviceId m =? device)%Z)).
Proof.
  unfold getDeviceInfo, summary_line.
  destruct (getDeviceProp m device) as [dev | | |]; simpl; try reflexivity.
  now rewrite !string_app_assoc.
Qed.

Local Close Scope string_scope.

(** The figure is the least whole number of megabytes that holds the
    memory. *)
Lemma megabytes_rounds_up (mem : N) :
  (mem <= megabytes mem * 1048576 < mem + 1048576)%N.
Proof.
  unfold megabytes, not_not. change (1024 * 1024)%N with 1048576%N.
  pose proof (N.div_mod mem 1048576 ltac:(discriminate)) as Hdm.
  pose proof (N.mod_lt mem 1048576 ltac:(discriminate)) as Hlt.
  destruct (N.eqb_spec (mem mod 1048576) 0) as [H0 | Hn0];
    set (q := (mem / 1048576)%N) in *; set (r := (mem mod 1048576)%N) in *;
    clearbody q r; lia.
Qed.

Definition summary_fixture (mem : N) : DeviceManager :=
  manager_of [ {| prop := simulated_prop mem;
                  flops := device_flops (simulated_prop mem);
                  nativeId := 0 |} ].

(** The simulated devices in discovery order and after
    [sortDevices(flops)], with position 2 active in both. *)
Definition in_discovery_order : DeviceManager :=
  with_activeDev (manager_of (discovered scenario 3)) 2.

Definition in_flops_order : DeviceManager :=
  sortDevices Mode.flops in_discovery_order.

(** C7, counterexample.  The device with native id 0 sits at position 0
    of one registry and at position 1 of the other, with the same
    descriptor and inactive in both; its summary starts with "-0-" in
    the first and with "-1-" in the second.  The text is not a function
    of the descriptor and the active flag alone: the position is
    printed in it. *)
Lemma getDeviceInfo_position_counterexample :
  nth_error (cuDevices in_discovery_order) 0 = Some (discovered_device scenario 0) /\
  nth_error (cuDevices in_flops_order) 1 = Some (discovered_device scenario 0) /\
  (getActiveDeviceId in_discovery_order =? 0) = false /\
  (getActiveDeviceId in_flops_order =? 1) = false /\
  getDeviceInfo in_discovery_order 0 =
    Returns ("-0- device0, 4096 MB, CUDA Compute 3.5" ++ newline)%string /\
  getDeviceInfo in_flops_order 1 =
    Returns ("-1- device0, 4096 MB, CUDA Compute 3.5" ++ newline)%string /\
  getDeviceInfo in_discovery_order 0 <> getDeviceInfo in_flops_order 1.
Proof. repeat split; try reflexivity. vm_compute. discriminate. Qed.

(** C7, as amended.  [getDeviceInfo] is a deterministic function of the
    position, the device descriptor and the active flag: for a given
    position, two registries that hold the same device descriptor
    there and agree on the active flag return the same text, character
    for character.  The memory figure in it is the total memory in
    bytes rounded up to the next whole megabyte: 3,145,729 bytes print
    as "4 MB" and exactly 3,145,728 bytes as "3 MB". *)
Theorem getDeviceInfo_deterministic
    (m1 m2 : DeviceManager) (device : Z) (dev : cudaDeviceProp)
    (Hdev1 : getDeviceProp m1 device = Returns dev)
    (Hdev2 : getDeviceProp m2 device = Returns dev)
    (Hflag : (getActiveDeviceId m1 =? device) = (getActiveDeviceId m2 =? device)) :
  getDeviceInfo m1 device = getDeviceInfo m2 device /\
  getDeviceInfo m1 device =
    Returns (summary_line device dev (getActiveDeviceId m1 =? device)) /\
  (totalGlobalMem dev <= megabytes (totalGlobalMem dev) * 1048576
                       < totalGlobalMem dev + 1048576)%N /\
  megabytes 3145729 = 4%N /\
  megabytes 3145728 = 3%N /\
  getDeviceInfo (summary_fixture 3145729) 0 =
    Returns ("[0] Simulated, 4 MB, CUDA Compute 3.5" ++ newline)%string /\
  getDeviceInfo (summary_fixture 3145728) 0 =
    Returns ("[0] Simulated, 3 MB, CUDA Compute 3.5" ++ newline)%string.
Proof.
  rewrite !getDeviceInfo_summary_line, Hdev1, Hdev2, Hflag. simpl.
  repeat split; try reflexivity; apply megabytes_rounds_up.
Qed.

Lemma getDeviceInfo_deterministic_witness :
  getDeviceInfo (manager_of (discovered scenario 3)) 1 =
  getDeviceInfo (sortDevices Mode.none
                   (with_activeDev (manager_of (discovered scenario 3)) 2)) 1.
Proof.
  refine (proj1 (getDeviceInfo_deterministic
                   (manager_of (discovered scenario 3))
                   (sortDevices Mode.none
                      (with_activeDev (manager_of (discovered scenario 3)) 2))
                   1 (scenario_prop 1) _ _ _)); reflexivity.
Defined.

(** ** C8 and C9: lookups by position *)

Lemma vector_at_in_range {A : Type} (v : list A) (i : Z) :
  0 <= i < vector_size v -> vector_size v <= INT_MAX ->
  exists x, vector_at v i = Returns x /\ nth_error v (Z.to_nat i) = Some x.
Proof.
  intros Hi Hmax. unfold vector_at, to_size_t.
  rewrite Z.mod_small by (unfold INT_MAX in Hmax; lia).
  destruct (Z.ltb_spec i (vector_size v)); [| lia].
  destruct (nth_error v (Z.to_nat i)) as [x |] eqn:Hnth.
  - now exists x.
  - apply nth_error_None in Hnth. unfold vector_size in Hi. lia.
Qed.

Lemma vector_at_negative {A : Type} (v : list A) (i : Z) :
  INT_MIN <= i < 0 -> vector_size v <= INT_MAX -> vector_at v i = Undefined.
Proof.
  intros Hi Hmax. unfold vector_at, to_size_t, INT_MIN, INT_MAX in *.
  assert (Hmod : i mod 2 ^ 64 = i + 2 ^ 64).
  { symmetry. apply (Z.mod_unique i (2 ^ 64) (-1) (i + 2 ^ 64)); lia. }
  rewrite Hmod. destruct (Z.ltb_spec (i + 2 ^ 64) (vector_size v)); [lia | reflexivity].
Qed.

(** What [getDeviceNativeId] does over the whole range of [int]. *)
Lemma getDeviceNativeId_cases (m : DeviceManager) (device : Z) :
  vector_size (cuDevices m) <= INT_MAX ->
  (vector_size (cuDevices m) <= device -> getDeviceNativeId m device = Returns (-1)) /\
  (0 <= device < vector_size (cuDevices m) ->
   exists d, nth_error (cuDevices m) (Z.to_nat device) = Some d /\
             getDeviceNativeId m device = Returns (nativeId d)) /\
  (INT_MIN <= device < 0 -> getDeviceNativeId m device = Undefined).
Proof.
  intros Hmax. unfold getDeviceNativeId. rewrite vector_size_int by exact Hmax.
  pose proof (Nat2Z.is_nonneg (List.length (cuDevices m))) as Hnn.
  fold (vector_size (cuDevices m)) in Hnn.
  repeat split.
  - intros H. destruct (Z.ltb_spec device (vector_size (cuDevices m))); [lia | reflexivity].
  - intros H. destruct (Z.ltb_spec device (vector_size (cuDevices m))); [| lia].
    destruct (vector_at_in_range (cuDevices m) device H Hmax) as (d & -> & Hnth).
    now exists d.
  - intros H. destruct (Z.ltb_spec device (vector_size (cuDevices m))); [| lia].
    now rewrite vector_at_negative.
Qed.

(** What [getDeviceProp] does over the whole range of [int]. *)
Lemma getDeviceProp_cases (m : DeviceManager) (device : Z) :
  0 < vector_size (cuDevices m) <= INT_MAX ->
  (vector_size (cuDevices m) <= device ->
   exists d0, nth_error (cuDevices m) 0 = Some d0 /\
              getDeviceProp m device = Returns (prop d0)) /\
  (0 <= device < vector_size (cuDevices m) ->
   exists d, nth_error (cuDevices m) (Z.to_nat device) = Some d /\
             getDeviceProp m device = Returns (prop d)) /\
  (INT_MIN <= device < 0 -> getDeviceProp m device = Undefined).
Proof.
  intros [Hpos Hmax]. unfold getDeviceProp. rewrite vector_size_int by exact Hmax.
  repeat split.
  - intros H. destruct (Z.ltb_spec device (vector_size (cuDevices m))); [lia |].
    destruct (vector_at_in_range (cuDevices m) 0 ltac:(lia) Hmax) as (d & -> & Hnth).
    now exists d.
  - intros H. destruct (Z.ltb_spec device (vector_size (cuDevices m))); [| lia].
    destruct (vector_at_in_range (cuDevices m) device H Hmax) as (d & -> & Hnth).
    now exists d.
  - intros H. destruct (Z.ltb_spec device (vector_size (cuDevices m))); [| lia].
    now rewrite vector_at_negative.
Qed.

(** The registry of the three simulated devices after
    [sortDevices(flops)]: native ids 1, 0, 2. *)
Definition trio : DeviceManager :=
  sortDevices Mode.flops (manager_of (discovered scenario 3)).

(** C8, the code at the failing input.  On the registry of three
    devices, positions 0 to 2 answer the native ids 1, 0, 2 and
    positions 3 and above answer -1; position -1 passes the test
    [device < size] and indexes the vector before its first element:
    no -1 is returned. *)
Theorem getDeviceNativeId_negative_position :
  getDeviceCount trio = 3 /\
  getDeviceNativeId trio 0 = Returns 1 /\
  getDeviceNativeId trio 1 = Returns 0 /\
  getDeviceNativeId trio 2 = Returns 2 /\
  getDeviceNativeId trio 3 = Returns (-1) /\
  getDeviceNativeId trio 4 = Returns (-1) /\
  getDeviceNativeId trio (-1) = Undefined /\
  getDeviceNativeId trio (-1) <> Returns (-1).
Proof. repeat split; try reflexivity. discriminate. Qed.

(** C9, the code at the failing input.  On the same registry,
    positions 0 to 2 answer the descriptor of the device there and
    positions 3 and above answer the descriptor at position 0;
    position -1 passes the test [device < size] and indexes the vector
    before its first element: the descriptor at position 0 is not
    what comes back. *)
Theorem getDeviceProp_negative_position :
  getDeviceCount trio = 3 /\
  getDeviceProp trio 0 = Returns (scenario_prop 1) /\
  getDeviceProp trio 1 = Returns (scenario_prop 0) /\
  getDeviceProp trio 2 = Returns (scenario_prop 2) /\
  getDeviceProp trio 3 = Returns (scenario_prop 1) /\
  getDeviceProp trio 4 = Returns (scenario_prop 1) /\
  getDeviceProp trio (-1) = Undefined /\
  getDeviceProp trio (-1) <> Returns (scenario_prop 1).
Proof. repeat split; try reflexivity. discriminate. Qed.

(** ** C10: architectures missing from the table *)

(** A revision is listed when its code [(major << 4) + minor] is the
    [compute] member of an entry of [gpus] other than the sentinel. *)
Definition listed (major minor : Z) : Prop :=
  compute_code major minor <> -1 /\
  In (compute_code major minor) (map fst gpus).

Lemma scan_gpus_absent (table : list (Z * Z)) (code : Z) :
  ~ In code (map fst table) -> scan_gpus table code = 0.
Proof.
  induction table as [|[compute cores] rest IH]; simpl; intros Hnot; [reflexivity |].
  destruct (compute =? -1); [reflexivity |].
  destruct (Z.eqb_spec compute code) as [-> | Hne].
  - exfalso. apply Hnot. now left.
  - apply IH. intros Hin. apply Hnot. now right.
Qed.

Lemma compute2cores_unlisted (major minor : Z) :
  ~ listed major minor -> compute2cores major minor = 0.
Proof.
  unfold listed, compute2cores. intros Hnot.
  destruct (Z.eq_dec (compute_code major minor) (-1)) as [-> | Hne].
  - reflexivity.
  - apply scan_gpus_absent. intros Hin. apply Hnot. now split.
Qed.

Lemma device_flops_unlisted (p : cudaDeviceProp) :
  ~ listed (major p) (minor p) -> device_flops p = 0.
Proof.
  intros Hnot. unfold device_flops.
  now rewrite compute2cores_unlisted, int_mul_0_r, int_mul_0_l.
Qed.

(** The code of a revision written with a hexadecimal digit for the
    minor number. *)
Lemma compute_code_digits (major minor : Z) :
  0 <= major < 2 ^ 27 -> 0 <= minor < 16 ->
  compute_code major minor = 16 * major + minor.
Proof.
  intros Hmajor Hminor. unfold compute_code, int_add, int_shl.
  rewrite Z.shiftl_mul_pow2 by lia. change (2 ^ 4) with 16.
  rewrite (to_int_small (major * 16)) by (unfold in_int, INT_MIN, INT_MAX; lia).
  rewrite to_int_small by (unfold in_int, INT_MIN, INT_MAX; lia). lia.
Qed.

(** The revisions the table spells out, as (major, minor). *)
Definition revisions : list (Z * Z) :=
  [ (1, 0); (1, 1); (1, 2); (1, 3); (2, 0); (2, 1); (3, 0); (3, 5); (5, 0) ].

(** For a revision written with one hexadecimal digit for the minor
    number, being listed is being one of these nine. *)
Lemma listed_digits (major minor : Z) :
  0 <= major < 2 ^ 27 -> 0 <= minor < 16 ->
  (listed major minor <-> In (major, minor) revisions).
Proof.
  intros Hmajor Hminor. unfold listed.
  rewrite compute_code_digits by assumption.
  unfold gpus, revisions. cbn [map fst In]. split.
  - intros [_ Hin].
    repeat (destruct Hin as [Hin | Hin]); try contradiction;
      repeat (first [ left; f_equal; lia | right ]).
  - intros Hin. split; [lia |].
    repeat (destruct Hin as [[= <- <-] | Hin]; [simpl; tauto |]).
    contradiction.
Qed.

(** A Maxwell device (5.0, listed) whose score product wraps around to
    zero, and a device of architecture 6.1, which the table lacks. *)
Definition wrapping_prop : cudaDeviceProp :=
  {| name := "listed"; totalGlobalMem := 8 * 1024 * 1024 * 1024;
     major := 5; minor := 0; multiProcessorCount := 16; clockRate := 2097152 |}.

Definition unlisted_prop : cudaDeviceProp :=
  {| name := "unlisted"; totalGlobalMem := 8 * 1024 * 1024 * 1024;
     major := 6; minor := 1; multiProcessorCount := 20; clockRate := 1500000 |}.

Definition mixed (first : cudaDeviceProp) : Platform :=
  {| cudaGetDeviceCount := (cudaSuccess, 2);
     cudaGetDeviceProperties := fun i => if i =? 0 then first else unlisted_prop;
     cudaSetDevice := fun d =>
       if (0 <=? d) && (d <? 2) then cudaSuccess else cudaErrorInvalidDevice |}.

Lemma listed_5_0 : listed 5 0.
Proof. split; [vm_compute; discriminate | vm_compute; tauto]. Qed.

Lemma unlisted_6_1 : ~ listed 6 1.
Proof.
  intros [_ Hin]. vm_compute in Hin.
  repeat (destruct Hin as [Hin | Hin]; [discriminate Hin |]). exact Hin.
Qed.

(** C10, the code at the failing input.  Discovery finds a listed
    device (5.0) and an unlisted one (6.1), in this order.  With 20
    units at 1,000,000 kHz the product of the listed device,
    2,560,000,000, is beyond [INT_MAX] and the [int] score comes out
    negative; with 16 units at 2,097,152 kHz it comes out as 0.  In
    both cases [sortDevices(flops)] puts the unlisted device (native
    id 1, score 0) first, ahead of the listed one. *)
Theorem unlisted_ranks_first_on_overflow :
  score_product maxwell_kHz = 2560000000 /\
  INT_MAX < score_product maxwell_kHz /\
  listed (major maxwell_kHz) (minor maxwell_kHz) /\
  listed (major wrapping_prop) (minor wrapping_prop) /\
  ~ listed (major unlisted_prop) (minor unlisted_prop) /\
  map (fun d => (nativeId d, flops d))
      (cuDevices (sortDevices Mode.flops (populated (mixed maxwell_kHz) 2))) =
    [(1, 0); (0, -1734967296)] /\
  map (fun d => (nativeId d, flops d))
      (cuDevices (sortDevices Mode.flops (populated (mixed wrapping_prop) 2))) =
    [(1, 0); (0, 0)].
Proof.
  split; [reflexivity |]. split; [reflexivity |].
  split; [exact listed_5_0 |]. split; [exact listed_5_0 |].
  split; [exact unlisted_6_1 |]. split; reflexivity.
Qed.

(** X15.  A device of a constructed registry whose revision code
    [(major << 4) + minor] is not an entry of the cores-per-unit table
    has throughput score 0, and [sortDevices(flops)] (on at most
    sixteen devices, or on pairwise distinct scores) places it behind
    every device whose score is positive. *)
Theorem unlisted_architecture_ranks_last
    (P : Platform) (default_mode : Mode.sort_mode) (m : DeviceManager)
    (u d : cudaDevice_t) (i j : nat)
    (Hctor : DeviceManager_ctor P default_mode = Returns m)
    (Hmodel : within_sort_model (primary_key Mode.flops) (cuDevices m))
    (Hunlisted : ~ listed (major (prop u)) (minor (prop u)))
    (Hu : nth_error (cuDevices (sortDevices Mode.flops m)) i = Some u)
    (Hd : nth_error (cuDevices (sortDevices Mode.flops m)) j = Some d)
    (Hpositive : 0 < flops d) :
  compute2cores (major (prop u)) (minor (prop u)) = 0 /\
  flops u = 0 /\
  (j < i)%nat.
Proof.
  assert (H0 : flops u = 0).
  { rewrite (DeviceManager_ctor_flops P default_mode m u Hctor).
    - now apply device_flops_unlisted.
    - apply (Permutation_in _ (Permutation_sym (sortDevices_perm Mode.flops m))).
      eapply nth_error_In; exact Hu. }
  split; [now apply compute2cores_unlisted |]. split; [exact H0 |].
  destruct (Nat.lt_trichotomy i j) as [Hlt | [Heq | Hgt]]; [| | exact Hgt].
  - pose proof (StronglySorted_nth _ _ (sortDevices_sorted Mode.flops m)
                  i j u d Hu Hd Hlt) as Hle.
    unfold descending in Hle. simpl in Hle. lia.
  - subst j. rewrite Hu in Hd. injection Hd as <-. lia.
Qed.

Lemma unlisted_architecture_ranks_last_witness :
  compute2cores 6 1 = 0 /\
  flops (discovered_device (mixed (scenario_prop 1)) 1) = 0 /\
  (0 < 1)%nat.
Proof.
  apply (unlisted_architecture_ranks_last
           (mixed (scenario_prop 1)) Mode.none
           (with_activeDev (sortDevices Mode.none (populated (mixed (scenario_prop 1)) 2)) 0)
           (discovered_device (mixed (scenario_prop 1)) 1)
           (discovered_device (mixed (scenario_prop 1)) 0) 1 0).
  - reflexivity.
  - left. unfold S_threshold. simpl. lia.
  - exact unlisted_6_1.
  - reflexivity.
  - reflexivity.
  - reflexivity.
Defined.

(* ================================================================= *)
(** * Further properties of the registry *)

(** ** Equal first keys under [std::sort] *)

Section SortTies.
Context {A : Type}.
Variable key : A -> Z.
Variable comp : A -> A -> bool.
Hypothesis comp_key : forall a b, comp a b = (key a >=? key b).

(** The elements of a list whose key is [k], in the order of the list. *)
Definition group (k : Z) (l : list A) : list A :=
  filter (fun e => key e =? k) l.

Lemma group_above (k : Z) (l : list A) :
  Forall (fun e => k < key e) l -> group k l = [].
Proof.
  induction 1 as [|e l He _ IH]; simpl; [reflexivity |].
  destruct (Z.eqb_spec (key e) k); [lia | exact IH].
Qed.

Lemma group_app (k : Z) (l1 l2 : list A) :
  group k (l1 ++ l2) = group k l1 ++ group k l2.
Proof. apply filter_app. Qed.

Lemma group_rev (k : Z) (l : list A) : group k (rev l) = rev (group k l).
Proof. apply filter_rev. Qed.

Lemma group_one_rev (k : Z) (x : A) : rev (group k [x]) = group k [x].
Proof. simpl. destruct (key x =? k); reflexivity. Qed.

Lemma unguarded_linear_insert_group (k : Z) (val : A) (left : list A) :
  StronglySorted (ascending key) left ->
  group k (unguarded_linear_insert comp val left) = group k left ++ group k [val].
Proof.
  induction 1 as [|next before Hs IH Hf]; [reflexivity |].
  simpl unguarded_linear_insert. rewrite comp_key.
  destruct (Z.geb_spec (key val) (key next)) as [Hge | Hlt].
  - change (next :: unguarded_linear_insert comp val before)
      with ([next] ++ unguarded_linear_insert comp val before).
    change (next :: before) with ([next] ++ before).
    now rewrite !group_app, IH, app_assoc.
  - change (val :: next :: before) with ([val] ++ next :: before).
    rewrite group_app. simpl (group k [val]).
    destruct (Z.eqb_spec (key val) k) as [Hk | Hk]; [| now rewrite app_nil_r].
    rewrite (group_above k (next :: before)); [reflexivity |].
    constructor; [lia |].
    eapply Forall_impl; [| exact Hf]. unfold ascending. intros; lia.
Qed.

Lemma insertion_step_group (k : Z) (ordered : list A) (val : A) :
  StronglySorted (descending key) ordered ->
  group k (insertion_step comp ordered val) = group k [val] ++ group k ordered.
Proof.
  intros Hs. unfold insertion_step.
  destruct ordered as [|first rest]; [now rewrite app_nil_r |].
  destruct (comp val first); [apply (group_app k [val]) |].
  rewrite group_rev, unguarded_linear_insert_group
    by (apply (StronglySorted_rev (descending key)); exact Hs).
  now rewrite rev_app_distr, group_one_rev, group_rev, rev_involutive.
Qed.

Lemma insertion_loop_group (k : Z) (rest ordered : list A) :
  StronglySorted (descending key) ordered ->
  group k (fold_left (insertion_step comp) rest ordered) =
  rev (group k rest) ++ group k ordered.
Proof.
  revert ordered. induction rest as [|val rest IH]; intros ordered Hs; [reflexivity |].
  simpl fold_left.
  rewrite IH by (apply insertion_step_descending; assumption).
  rewrite insertion_step_group by exact Hs.
  change (val :: rest) with ([val] ++ rest).
  now rewrite group_app, rev_app_distr, group_one_rev, app_assoc.
Qed.

(** Elements of equal key leave [std::sort] in the reverse of the order
    they entered it. *)
Lemma std_sort_group (k : Z) (range : list A) :
  group k (std_sort comp range) = rev (group k range).
Proof.
  destruct range as [|first rest]; [reflexivity |].
  unfold std_sort, insertion_sort.
  rewrite insertion_loop_group by repeat constructor.
  change (first :: rest) with ([first] ++ rest).
  now rewrite group_app, rev_app_distr, group_one_rev.
Qed.

(** A descending list is known once its groups are. *)
Lemma descending_groups_unique (l1 l2 : list A) :
  StronglySorted (descending key) l1 ->
  StronglySorted (descending key) l2 ->
  (forall k, group k l1 = group k l2) ->
  l1 = l2.
Proof.
  intros H1. revert l2. induction H1 as [|a t1 Hs1 IH Hf1]; intros l2 H2 Hg.
  - destruct l2 as [|b t2]; [reflexivity |].
    specialize (Hg (key b)). simpl in Hg. rewrite Z.eqb_refl in Hg. discriminate.
  - destruct H2 as [|b t2 Hs2 Hf2].
    + specialize (Hg (key a)). simpl in Hg. rewrite Z.eqb_refl in Hg. discriminate.
    + rewrite Forall_forall in Hf1, Hf2. unfold descending in Hf1, Hf2.
      assert (Hmem : forall (x : A) (l l' : list A),
                 group (key x) (x :: l) = group (key x) l' ->
                 exists e, In e l' /\ key e = key x).
      { intros x l l' Heq. simpl in Heq. rewrite Z.eqb_refl in Heq.
        assert (Hin : In x (group (key x) l')) by (rewrite <- Heq; now left).
        apply filter_In in Hin. destruct Hin as [Hin Hk].
        exists x. split; [exact Hin | reflexivity]. }
      assert (Hab : key a = key b).
      { destruct (Hmem a t1 (b :: t2) (Hg (key a))) as (e & [<- | He] & Hk);
          [exact (eq_sym Hk) |].
        destruct (Hmem b t2 (a :: t1) (eq_sym (Hg (key b)))) as (e' & [<- | He'] & Hk');
          [exact Hk' |].
        specialize (Hf2 e He). specialize (Hf1 e' He'). lia. }
      assert (Hhead := Hg (key a)). simpl in Hhead.
      rewrite Z.eqb_refl, <- Hab, Z.eqb_refl in Hhead.
      injection Hhead as <- Htail. f_equal.
      apply IH; [exact Hs2 |]. intros k.
      specialize (Hg k). simpl in Hg.
      destruct (Z.eqb_spec (key a) k) as [Hk | Hne]; [| exact Hg].
      now injection Hg.
Qed.

(** Members of a list with pairwise distinct keys are told apart by
    their key. *)
Lemma NoDup_key_inj (l : list A) :
  NoDup (map key l) ->
  forall a b, In a l -> In b l -> key a = key b -> a = b.
Proof.
  induction l as [|x l IH]; simpl; intros Hnd a b Ha Hb Hk; [contradiction |].
  inversion Hnd as [|? ? Hnotin Hnd']; subst.
  destruct Ha as [<- | Ha], Hb as [<- | Hb]; try reflexivity.
  - exfalso. apply Hnotin. rewrite Hk. now apply in_map.
  - exfalso. apply Hnotin. rewrite <- Hk. now apply in_map.
  - now apply IH.
Qed.
End SortTies.

(** ** The comparators as relations *)

(** X1.  Each of the four comparators is a reflexive, total relation
    decided by the first key alone: [comp a a] holds, one of
    [comp a b], [comp b a] always holds, both hold exactly when the
    first keys are equal, and devices that agree on the first key are
    interchangeable as arguments whatever their other fields. *)
Theorem comparator_first_key_only (mode : Mode.sort_mode) (a b a' b' : cudaDevice_t) :
  comparator mode a a = true /\
  (comparator mode a b = true \/ comparator mode b a = true) /\
  (comparator mode a b = true /\ comparator mode b a = true <->
   primary_key mode a = primary_key mode b) /\
  (primary_key mode a = primary_key mode a' ->
   primary_key mode b = primary_key mode b' ->
   comparator mode a b = comparator mode a' b').
Proof.
  rewrite !comparator_primary_key. repeat split.
  - apply Z.geb_le. lia.
  - destruct (Z.geb_spec (primary_key mode a) (primary_key mode b));
      [now left | right; apply Z.geb_le; lia].
  - intros [H1 H2]. apply Z.geb_le in H1, H2. lia.
  - apply Z.geb_le. lia.
  - apply Z.geb_le. lia.
  - intros -> ->. reflexivity.
Qed.

Lemma comparator_first_key_only_witness :
  comparator Mode.flops (discovered_device (mixed wrapping_prop) 0)
                        (discovered_device (mixed wrapping_prop) 1) =
  comparator Mode.flops (discovered_device (mixed wrapping_prop) 1)
                        (discovered_device (mixed wrapping_prop) 0).
Proof.
  refine (proj2 (proj2 (proj2 (comparator_first_key_only Mode.flops
            (discovered_device (mixed wrapping_prop) 0)
            (discovered_device (mixed wrapping_prop) 1)
            (discovered_device (mixed wrapping_prop) 1)
            (discovered_device (mixed wrapping_prop) 0)))) _ _); reflexivity.
Defined.

(** ** Ties, repeated sorts and distinct keys *)

(** X2.  On a registry of at most sixteen devices, the devices that
    share a value of the mode's first key leave [sortDevices] in the
    reverse of the order they had before the call. *)
Theorem sortDevices_reverses_ties (mode : Mode.sort_mode) (m : DeviceManager) (k : Z)
    (Hsmall : (List.length (cuDevices m) <= S_threshold)%nat) :
  group (primary_key mode) k (cuDevices (sortDevices mode m)) =
  rev (group (primary_key mode) k (cuDevices m)).
Proof.
  rewrite sortDevices_cuDevices.
  apply std_sort_group, comparator_primary_key.
Qed.

Lemma sortDevices_reverses_ties_witness :
  group (primary_key Mode.memory) 3145729
        (cuDevices (sortDevices Mode.memory (manager_of (discovered (uniform_platform 3) 3)))) =
  rev (group (primary_key Mode.memory) 3145729 (discovered (uniform_platform 3) 3)).
Proof.
  apply (sortDevices_reverses_ties Mode.memory
           (manager_of (discovered (uniform_platform 3) 3)) 3145729).
  unfold S_threshold. simpl. lia.
Defined.

(** X3.  When the devices have pairwise distinct values of the mode's
    first key, the order [sortDevices] produces does not depend on the
    order it finds: any rearrangement of the devices sorts to the same
    list, and sorting a second time changes nothing. *)
Theorem sortDevices_distinct_keys (mode : Mode.sort_mode) (m m' : DeviceManager)
    (Hdistinct : NoDup (map (primary_key mode) (cuDevices m)))
    (Hsame : Permutation (cuDevices m) (cuDevices m')) :
  cuDevices (sortDevices mode m') = cuDevices (sortDevices mode m) /\
  cuDevices (sortDevices mode (sortDevices mode m)) = cuDevices (sortDevices mode m).
Proof.
  assert (Hinj : forall a b, In a (cuDevices (sortDevices mode m)) ->
                             In b (cuDevices (sortDevices mode m)) ->
                             primary_key mode a = primary_key mode b -> a = b).
  { intros a b Ha Hb.
    pose proof (Permutation_sym (sortDevices_perm mode m)) as Hback.
    apply (NoDup_key_inj (primary_key mode) (cuDevices m) Hdistinct).
    - exact (Permutation_in a Hback Ha).
    - exact (Permutation_in b Hback Hb). }
  split; symmetry; apply (descending_unique (primary_key mode)); try exact Hinj;
    try apply sortDevices_sorted.
  - rewrite <- (sortDevices_perm mode m), <- (sortDevices_perm mode m'). exact Hsame.
  - apply sortDevices_perm.
Qed.

Lemma sortDevices_distinct_keys_witness :
  cuDevices (sortDevices Mode.flops (sortDevices Mode.none (populated scenario 3))) =
  cuDevices (sortDevices Mode.flops (populated scenario 3)).
Proof.
  refine (proj1 (sortDevices_distinct_keys Mode.flops (populated scenario 3)
                   (sortDevices Mode.none (populated scenario 3)) _ _)).
  - simpl. repeat constructor; simpl; intuition discriminate.
  - exact (sortDevices_perm Mode.none (populated scenario 3)).
Defined.

(** X4.  [sortDevices] is not idempotent on ties: on a registry of at
    most sixteen devices a second call reverses every group of equal
    first key again, so that three calls in a row give what one call
    gives, while two calls need not (two identical cards change places
    each time). *)
Theorem sortDevices_three_times (mode : Mode.sort_mode) (m : DeviceManager)
    (Hsmall : (List.length (cuDevices m) <= S_threshold)%nat) :
  cuDevices (sortDevices mode (sortDevices mode (sortDevices mode m))) =
    cuDevices (sortDevices mode m) /\
  (forall k, group (primary_key mode) k (cuDevices (sortDevices mode (sortDevices mode m))) =
             group (primary_key mode) k (cuDevices m)) /\
  cuDevices (sortDevices Mode.flops (sortDevices Mode.flops twins)) <>
    cuDevices (sortDevices Mode.flops twins).
Proof.
  assert (Hgroup : forall m0 k,
             group (primary_key mode) k (cuDevices (sortDevices mode m0)) =
             rev (group (primary_key mode) k (cuDevices m0))).
  { intros m0 k. rewrite sortDevices_cuDevices.
    apply std_sort_group, comparator_primary_key. }
  split; [| split].
  - apply (descending_groups_unique (primary_key mode)); try apply sortDevices_sorted.
    intros k. now rewrite !Hgroup, rev_involutive.
  - intros k. now rewrite !Hgroup, rev_involutive.
  - intros H. apply (f_equal (map nativeId)) in H. discriminate H.
Qed.

Lemma sortDevices_three_times_witness :
  cuDevices (sortDevices Mode.compute (sortDevices Mode.compute (sortDevices Mode.compute twins))) =
  cuDevices (sortDevices Mode.compute twins).
Proof.
  refine (proj1 (sortDevices_three_times Mode.compute twins _)).
  unfold S_threshold. simpl. lia.
Defined.

(** ** Every way [setActiveDevice] and the constructor can end *)

Lemma setActiveDevice_returns (P : Platform) (device : Z) (m m' : DeviceManager) (r : Z) :
  setActiveDevice P device m = Returns (r, m') ->
  (r = -1 /\ m' = m /\ to_int (vector_size (cuDevices m)) < device) \/
  (r = activeDev m /\ m' = with_activeDev m device /\
   device <= to_int (vector_size (cuDevices m)) /\
   cudaSetDevice P device = cudaSuccess).
Proof.
  unfold setActiveDevice.
  destruct (Z.gtb_spec device (to_int (vector_size (cuDevices m)))) as [Hgt | Hle].
  - intros [= <- <-]. left. repeat split. lia.
  - destruct (CUDA_outcome (cudaSetDevice P device)) as [[-> Hok] | [-> _]]; simpl.
    + intros [= <- <-]. right. repeat split; assumption.
    + discriminate.
Qed.

(** X7.  A failing [cudaGetDeviceCount] ends the process whatever
    count it left.  When the discovered devices are a list the sort is
    modelled on (at most sixteen devices, or pairwise distinct values
    of the default mode's first key), the constructor returns a manager
    exactly when [cudaGetDeviceCount] succeeds with a positive count
    and [cudaSetDevice(0)] succeeds, and a failing [cudaSetDevice(0)]
    after a complete discovery ends the process: neither failure is
    reported as an exception. *)
Theorem DeviceManager_ctor_outcomes (P : Platform) (default_mode : Mode.sort_mode)
    (Hint : snd (cudaGetDeviceCount P) <= INT_MAX) :
  (fst (cudaGetDeviceCount P) <> cudaSuccess ->
   DeviceManager_ctor P default_mode = Exits) /\
  (within_sort_model (primary_key default_mode)
     (discovered P (Z.to_nat (snd (cudaGetDeviceCount P)))) ->
   (fst (cudaGetDeviceCount P) = cudaSuccess -> 0 < snd (cudaGetDeviceCount P) ->
    cudaSetDevice P 0 <> cudaSuccess ->
    DeviceManager_ctor P default_mode = Exits) /\
   ((exists m, DeviceManager_ctor P default_mode = Returns m) <->
    fst (cudaGetDeviceCount P) = cudaSuccess /\ 0 < snd (cudaGetDeviceCount P) /\
    cudaSetDevice P 0 = cudaSuccess)).
Proof.
  rewrite DeviceManager_ctor_cases.
  set (devices := discovered P (Z.to_nat (snd (cudaGetDeviceCount P)))).
  set (err := fst (cudaGetDeviceCount P)) in *.
  set (count := snd (cudaGetDeviceCount P)) in *. clearbody err count devices.
  assert (Hguard : 0 < count ->
            setActiveDevice P 0 (sortDevices default_mode (populated P count)) =
            (CUDA (cudaSetDevice P 0) ;;;
             Returns (activeDev (sortDevices default_mode (populated P count)),
                      with_activeDev (sortDevices default_mode (populated P count)) 0))).
  { intros Hpos. apply setActiveDevice_within_guard.
    rewrite sortDevices_size, populated_size by lia.
    rewrite to_int_small by (unfold in_int, INT_MIN; lia). lia. }
  split; [| intros _; split].
  - intros Herr. destruct err; [contradiction | reflexivity ..].
  - intros -> Hpos Hset. simpl.
    destruct (Z.eqb_spec count 0); [lia |]. destruct (Z.ltb_spec count 0); [lia |].
    rewrite Hguard by exact Hpos.
    destruct (CUDA_outcome (cudaSetDevice P 0)) as [[_ Hok] | [-> _]];
      [contradiction | reflexivity].
  - split.
    + intros [m Hm]. destruct err; simpl in Hm; try discriminate.
      destruct (Z.eqb_spec count 0); [discriminate |].
      destruct (Z.ltb_spec count 0); [discriminate |].
      rewrite Hguard in Hm by lia.
      destruct (CUDA_outcome (cudaSetDevice P 0)) as [[_ Hok] | [Hex _]].
      * repeat split; [lia | exact Hok].
      * rewrite Hex in Hm. discriminate.
    + intros (-> & Hpos & Hset). simpl.
      destruct (Z.eqb_spec count 0); [lia |]. destruct (Z.ltb_spec count 0); [lia |].
      rewrite Hguard, Hset by exact Hpos. simpl. eexists. reflexivity.
Qed.

(** A runtime that finds two devices and then fails to select one. *)
Definition stubborn_platform : Platform :=
  {| cudaGetDeviceCount := (cudaSuccess, 2);
     cudaGetDeviceProperties := fun _ => simulated_prop 3145729;
     cudaSetDevice := fun _ => cudaErrorUnknown |}.

Lemma DeviceManager_ctor_outcomes_witness :
  DeviceManager_ctor stubborn_platform Mode.flops = Exits.
Proof.
  refine (proj1 (proj2 (DeviceManager_ctor_outcomes stubborn_platform Mode.flops _) _) _ _ _).
  - vm_compute. discriminate.
  - left. unfold S_threshold. simpl. lia.
  - reflexivity.
  - reflexivity.
  - discriminate.
Defined.

(** ** Registries a program can reach *)

(** From the constructor by any sequence of [sortDevices] and
    returning [setActiveDevice] calls ([setDevice] is the latter). *)
Inductive reachable (P : Platform) (default_mode : Mode.sort_mode) : DeviceManager -> Prop :=
| reach_ctor (m : DeviceManager) :
    DeviceManager_ctor P default_mode = Returns m ->
    reachable P default_mode m
| reach_sortDevices (mode : Mode.sort_mode) (m : DeviceManager) :
    reachable P default_mode m ->
    reachable P default_mode (sortDevices mode m)
| reach_setActiveDevice (device r : Z) (m m' : DeviceManager) :
    reachable P default_mode m ->
    setActiveDevice P device m = Returns (r, m') ->
    reachable P default_mode m'.

Lemma DeviceManager_ctor_activeDev (P : Platform) (default_mode : Mode.sort_mode)
    (m : DeviceManager) :
  DeviceManager_ctor P default_mode = Returns m -> activeDev m = 0.
Proof.
  rewrite DeviceManager_ctor_cases.
  destruct (cudaError_eqb _ _); [| discriminate].
  destruct (_ =? 0); [discriminate |]. destruct (_ <? 0); [discriminate |].
  destruct (setActiveDevice P 0 _) as [[r m'] | | |] eqn:Hset; simpl; try discriminate.
  intros [= <-]. apply setActiveDevice_returns in Hset.
  destruct Hset as [(_ & -> & _) | (_ & -> & _)]; [| reflexivity].
  apply sortDevices_activeDev.
Qed.

(** The devices of a reachable registry are the discovered ones, and
    its count is the one the runtime reported. *)
Lemma reachable_devices (P : Platform) (default_mode : Mode.sort_mode) (m : DeviceManager) :
  reachable P default_mode m ->
  fst (cudaGetDeviceCount P) = cudaSuccess /\
  0 < snd (cudaGetDeviceCount P) /\
  nDevices m = snd (cudaGetDeviceCount P) /\
  vector_size (cuDevices m) = snd (cudaGetDeviceCount P) /\
  Permutation (discovered P (Z.to_nat (snd (cudaGetDeviceCount P)))) (cuDevices m).
Proof.
  induction 1 as [m Hctor | mode m _ IH | device r m m' _ IH Hset].
  - apply DeviceManager_ctor_returns in Hctor.
    destruct Hctor as (n & Hcount & Hpos & Hperm & Hnd). rewrite Hcount. simpl.
    repeat split; try assumption.
    unfold vector_size. rewrite <- (Permutation_length Hperm).
    unfold discovered. rewrite discovery_loop_length. lia.
  - destruct IH as (Herr & Hpos & Hnd & Hsize & Hperm).
    rewrite sortDevices_nDevices, sortDevices_size.
    repeat split; try assumption.
    rewrite Hperm. apply sortDevices_perm.
  - apply setActiveDevice_cuDevices in Hset. destruct Hset as [-> ->]. exact IH.
Qed.

(** X5.  On a runtime whose [cudaSetDevice] accepts no ordinal outside
    [0, count), every registry reachable from the constructor through
    [sortDevices] and returning [setActiveDevice] calls is well formed:
    the count is the length of the device vector and the number the
    runtime reported, and the active position lies inside the vector. *)
Theorem reachable_well_formed
    (P : Platform) (default_mode : Mode.sort_mode) (m : DeviceManager)
    (Hrejects : forall d, cudaSetDevice P d = cudaSuccess ->
                          0 <= d < snd (cudaGetDeviceCount P))
    (Hint : snd (cudaGetDeviceCount P) <= INT_MAX)
    (Hreach : reachable P default_mode m) :
  well_formed m /\
  getDeviceCount m = snd (cudaGetDeviceCount P) /\
  0 <= getActiveDeviceId m < getDeviceCount m.
Proof.
  assert (Hact : 0 <= activeDev m < snd (cudaGetDeviceCount P)).
  { induction Hreach as [m Hctor | mode m Hr IH | device r m m' Hr IH Hset].
    - rewrite (DeviceManager_ctor_activeDev P default_mode m Hctor).
      apply reach_ctor, reachable_devices in Hctor. lia.
    - now rewrite sortDevices_activeDev.
    - apply setActiveDevice_returns in Hset.
      destruct Hset as [(_ & -> & _) | (_ & -> & _ & Hok)]; [exact IH |].
      simpl. now apply Hrejects. }
  destruct (reachable_devices P default_mode m Hreach) as (_ & Hpos & Hnd & Hsize & _).
  unfold well_formed, registry_invariant, getDeviceCount, getActiveDeviceId.
  rewrite Hnd, Hsize. lia.
Qed.

Lemma reachable_well_formed_witness :
  well_formed (sortDevices Mode.memory
                 (with_activeDev (sortDevices Mode.flops (populated scenario 3)) 0)).
Proof.
  refine (proj1 (reachable_well_formed scenario Mode.flops _ _ _ _)).
  - intros d. simpl.
    destruct (Z.leb_spec 0 d), (Z.ltb_spec d 3); simpl; (lia || discriminate).
  - vm_compute. discriminate.
  - apply reach_sortDevices, reach_ctor. reflexivity.
Defined.

(** ** Positions and native ids *)

Lemma discovery_loop_NoDup (P : Platform) (turns : nat) :
  forall i, NoDup (discovery_loop P turns i []).
Proof.
  induction turns as [|turns IH]; intros i; [constructor |].
  rewrite discovery_loop_succ. constructor; [| apply IH].
  intros Hin. apply discovery_loop_In in Hin. simpl in Hin. lia.
Qed.

(** X6.  In every reachable registry the lookup [getDeviceNativeId]
    is a one-to-one correspondence between the positions and the
    native ids [0 .. count-1]: whatever sorts were applied, each native
    id is answered at exactly one position. *)
Theorem nativeId_position_bijection
    (P : Platform) (default_mode : Mode.sort_mode) (m : DeviceManager) (k : Z)
    (Hint : snd (cudaGetDeviceCount P) <= INT_MAX)
    (Hreach : reachable P default_mode m)
    (Hk : 0 <= k < getDeviceCount m) :
  exists p, 0 <= p < getDeviceCount m /\
            getDeviceNativeId m p = Returns k /\
            forall q, 0 <= q < getDeviceCount m ->
                      getDeviceNativeId m q = Returns k -> q = p.
Proof.
  destruct (reachable_devices P default_mode m Hreach) as (_ & Hpos & Hnd & Hsize & Hperm).
  unfold getDeviceCount in *. rewrite Hnd in *.
  set (n := snd (cudaGetDeviceCount P)) in *. clearbody n.
  assert (Hmax : vector_size (cuDevices m) <= INT_MAX) by lia.
  assert (Hmember : forall d, In d (cuDevices m) -> d = discovered_device P (nativeId d)).
  { intros d Hd. apply (Permutation_in _ (Permutation_sym Hperm)) in Hd.
    now apply discovery_loop_In in Hd. }
  assert (Hnodup : NoDup (cuDevices m)).
  { eapply Permutation_NoDup; [exact Hperm | apply discovery_loop_NoDup]. }
  assert (Hin : In (discovered_device P k) (cuDevices m)).
  { apply (Permutation_in _ Hperm). unfold discovered.
    apply (nth_error_In _ (Z.to_nat k)).
    rewrite discovery_loop_nth by lia. do 2 f_equal. lia. }
  apply In_nth_error in Hin. destruct Hin as [i Hi].
  assert (Hilt : (i < List.length (cuDevices m))%nat).
  { apply nth_error_Some. rewrite Hi. discriminate. }
  unfold vector_size in Hsize.
  exists (Z.of_nat i). split; [lia |]. split.
  - destruct (getDeviceNativeId_cases m (Z.of_nat i) Hmax) as (_ & Hin_range & _).
    destruct Hin_range as (d & Hd & ->); [unfold vector_size; lia |].
    rewrite Nat2Z.id, Hi in Hd. injection Hd as <-. reflexivity.
  - intros q Hq Hret.
    destruct (getDeviceNativeId_cases m q Hmax) as (_ & Hin_range & _).
    destruct Hin_range as (d & Hd & Hq'); [unfold vector_size; lia |].
    rewrite Hq' in Hret. injection Hret as Hnat.
    assert (Hdk : d = discovered_device P k).
    { rewrite <- Hnat. apply Hmember. eapply nth_error_In; exact Hd. }
    subst d.
    assert (Heq : Z.to_nat q = i).
    { apply (proj1 (NoDup_nth_error (cuDevices m)) Hnodup).
      - apply nth_error_Some. rewrite Hd. discriminate.
      - now rewrite Hd, Hi. }
    lia.
Qed.

Lemma nativeId_position_bijection_witness :
  exists p, 0 <= p < getDeviceCount trio /\
            getDeviceNativeId trio p = Returns 0 /\
            forall q, 0 <= q < getDeviceCount trio ->
                      getDeviceNativeId trio q = Returns 0 -> q = p.
Proof.
  apply (nativeId_position_bijection scenario Mode.none trio 0).
  - vm_compute. discriminate.
  - change (reachable scenario Mode.none
              (sortDevices Mode.flops
                 (with_activeDev (sortDevices Mode.none (populated scenario 3)) 0))).
    apply reach_sortDevices, reach_ctor. reflexivity.
  - split; vm_compute; (reflexivity || discriminate).
Defined.

(** ** The values of [compute2cores] *)

(** X8.  For all [int] arguments, [compute2cores] returns 0 or one of
    the core counts of the table, 8, 32, 48, 128 or 192; it never
    returns the [-1] stored in the sentinel entry nor any other
    negative number, and it returns a non-zero count exactly for the
    revisions whose code is an entry of the table. *)
Theorem compute2cores_values (major minor : Z) :
  In (compute2cores major minor) [0; 8; 32; 48; 128; 192] /\
  0 <= compute2cores major minor <= 192 /\
  (compute2cores major minor <> 0 <-> listed major minor).
Proof.
  unfold listed, compute2cores. generalize (compute_code major minor). intros code.
  unfold gpus, scan_gpus. cbn [map fst In].
  repeat match goal with
         | |- context [?c =? -1] => change (c =? -1) with false; cbv iota
         | |- context [?c =? code] => destruct (Z.eqb_spec c code)
         end;
    simpl; (split; [tauto | split; [lia |]]);
    (split;
     [ intros Hnz; first [lia | split; [lia | tauto]]
     | intros [Hne Hin]; first [lia | intuition lia] ]).
Qed.

Lemma compute2cores_values_witness : listed 3 5.
Proof.
  apply (proj1 (proj2 (proj2 (compute2cores_values 3 5)))).
  vm_compute. discriminate.
Defined.

(** ** Device lines and the full report *)

Local Open Scope string_scope.

Lemma summary_line_marker (device : Z) (dev : cudaDeviceProp) (show_braces : bool) :
  prefix "[" (summary_line device dev show_braces) = show_braces.
Proof.
  destruct show_braces; unfold summary_line; simpl; [| reflexivity].
  now destruct (toString_int device ++ _).
Qed.

(** X9.  On a well-formed registry [getDeviceInfo] answers every
    non-negative position.  Inside the range the line describes the
    device at the position and starts with "[" exactly when the
    position is the active one.  At or past the device count the line
    carries the requested position number with the descriptor of the
    device at position 0, and is never bracketed. *)
Theorem getDeviceInfo_positions (m : DeviceManager) (device : Z)
    (Hwf : well_formed m)
    (Hdevice : 0 <= device) :
  (device < getDeviceCount m ->
   exists d, nth_error (cuDevices m) (Z.to_nat device) = Some d /\
             getDeviceInfo m device =
               Returns (summary_line device (prop d) (getActiveDeviceId m =? device)%Z)) /\
  (getDeviceCount m <= device ->
   exists d0, nth_error (cuDevices m) 0 = Some d0 /\
              getDeviceInfo m device = Returns (summary_line device (prop d0) false)) /\
  (exists line, getDeviceInfo m device = Returns line /\
                (prefix "[" line = true <-> device = getActiveDeviceId m)).
Proof.
  destruct Hwf as (Hnd & Hrange & Hinv).
  unfold getDeviceCount, getActiveDeviceId, registry_invariant in *.
  assert (Hsize : 0 < vector_size (cuDevices m) <= INT_MAX) by lia.
  destruct (getDeviceProp_cases m device Hsize) as (Habove & Hinside & _).
  rewrite getDeviceInfo_summary_line. unfold getActiveDeviceId.
  assert (Hin : device < nDevices m ->
            exists d, nth_error (cuDevices m) (Z.to_nat device) = Some d /\
                      (dev <- getDeviceProp m device ;;
                       Returns (summary_line device dev (activeDev m =? device)%Z)) =
                      Returns (summary_line device (prop d) (activeDev m =? device)%Z)).
  { intros Hlt. destruct Hinside as (d & Hd & ->); [lia |]. now exists d. }
  assert (Hout : nDevices m <= device ->
            exists d0, nth_error (cuDevices m) 0 = Some d0 /\
                       (dev <- getDeviceProp m device ;;
                        Returns (summary_line device dev (activeDev m =? device)%Z)) =
                       Returns (summary_line device (prop d0) false)).
  { intros Hge. destruct Habove as (d0 & Hd0 & ->); [lia |]. exists d0.
    split; [exact Hd0 |]. simpl.
    destruct (Z.eqb_spec (activeDev m) device); [lia | reflexivity]. }
  split; [exact Hin |]. split; [exact Hout |].
  destruct (Z.lt_ge_cases device (nDevices m)) as [Hlt | Hge].
  - destruct (Hin Hlt) as (d & _ & ->). eexists. split; [reflexivity |].
    rewrite summary_line_marker. rewrite Z.eqb_eq. split; intros; lia.
  - destruct (Hout Hge) as (d0 & _ & ->). eexists. split; [reflexivity |].
    rewrite summary_line_marker. split; [discriminate | lia].
Qed.

Lemma getDeviceInfo_positions_witness :
  exists d0, nth_error (cuDevices trio) 0 = Some d0 /\
             getDeviceInfo trio 7 = Returns (summary_line 7 (prop d0) false).
Proof.
  refine (proj1 (proj2 (getDeviceInfo_positions trio 7 _ _)) _).
  - unfold well_formed, registry_invariant.
    repeat split; vm_compute; (reflexivity || discriminate).
  - lia.
  - vm_compute. discriminate.
Defined.

(** The line of position [i], for a position inside the vector. *)
Definition device_line (m : DeviceManager) (i : Z) : string :=
  match nth_error (cuDevices m) (Z.to_nat i) with
  | Some d => summary_line i (prop d) (getActiveDeviceId m =? i)%Z
  | None => ""
  end.

(** The lines of the positions [i], [i + 1], ... ([turns] of them). *)
Fixpoint position_lines (m : DeviceManager) (turns : nat) (i : Z) : list string :=
  match turns with
  | O => []
  | S turns' => device_line m i :: position_lines m turns' (i + 1)%Z
  end.

Definition lines_text (lines : list string) : string :=
  fold_right append "" lines.

Lemma string_app_empty (s : string) : s ++ "" = s.
Proof. induction s as [|c s IH]; simpl; [reflexivity | now rewrite IH]. Qed.

Lemma position_lines_length (m : DeviceManager) (turns : nat) :
  forall i, List.length (position_lines m turns i) = turns.
Proof. induction turns as [|turns IH]; intros i; simpl; [reflexivity | now rewrite IH]. Qed.

Lemma position_lines_nth (m : DeviceManager) (turns : nat) :
  forall (i : Z) (j : nat), (j < turns)%nat ->
    nth_error (position_lines m turns i) j = Some (device_line m (i + Z.of_nat j)).
Proof.
  induction turns as [|turns IH]; intros i j Hj; [lia |].
  destruct j as [|j]; simpl nth_error.
  - do 2 f_equal. lia.
  - rewrite IH by lia. do 2 f_equal. lia.
Qed.

Lemma getInfo_loop_lines (m : DeviceManager) (turns : nat) :
  vector_size (cuDevices m) <= INT_MAX ->
  forall (i : Z) (info : string),
    (0 <= i)%Z -> (i + Z.of_nat turns <= vector_size (cuDevices m))%Z ->
    getInfo_loop m turns i info =
    Returns (info ++ lines_text (position_lines m turns i)).
Proof.
  intros Hmax. induction turns as [|turns IH]; intros i info Hi Hend; simpl.
  - now rewrite string_app_empty.
  - assert (Hsize : (0 < vector_size (cuDevices m) <= INT_MAX)%Z) by lia.
    destruct (getDeviceProp_cases m i Hsize) as (_ & Hinside & _).
    destruct Hinside as (d & Hd & Hprop); [lia |].
    rewrite getDeviceInfo_summary_line, Hprop. simpl.
    rewrite IH by lia. unfold device_line. rewrite Hd.
    now rewrite string_app_assoc.
Qed.

(** X10.  On a well-formed registry, once the platform line is
    obtained, [getInfo] returns the banner, the platform line and then
    one line per device, in position order: as many lines as
    [getDeviceCount], the line at position [j] describing the device
    stored there, and exactly the line of the active position starting
    with "[". *)
Theorem getInfo_report (b : Build) (h : Host) (m : DeviceManager) (platform : string)
    (Hwf : well_formed m)
    (Hplatform : getPlatformInfo b h = Returns platform) :
  exists lines : list string,
    getInfo b h m =
      Returns (("ArrayFire v" ++ AF_VERSION b ++ AF_VERSION_MINOR b ++
                " (CUDA, " ++ get_system b ++ ", build " ++ REVISION b ++ ")" ++
                newline) ++ platform ++ lines_text lines) /\
    Z.of_nat (List.length lines) = getDeviceCount m /\
    (forall (j : nat) (d : cudaDevice_t),
        nth_error (cuDevices m) j = Some d ->
        nth_error lines j =
          Some (summary_line (Z.of_nat j) (prop d)
                             (getActiveDeviceId m =? Z.of_nat j)%Z)) /\
    (forall (j : nat) (line : string),
        nth_error lines j = Some line ->
        (prefix "[" line = true <-> Z.of_nat j = getActiveDeviceId m)).
Proof.
  destruct Hwf as (Hnd & Hrange & Hinv).
  unfold getDeviceCount, getActiveDeviceId, registry_invariant in *.
  assert (Hlen : Z.to_nat (nDevices m) = List.length (cuDevices m)).
  { rewrite Hnd. unfold vector_size. apply Nat2Z.id. }
  exists (position_lines m (Z.to_nat (nDevices m)) 0).
  assert (Hline : forall (j : nat) (d : cudaDevice_t),
             nth_error (cuDevices m) j = Some d ->
             nth_error (position_lines m (Z.to_nat (nDevices m)) 0) j =
             Some (summary_line (Z.of_nat j) (prop d) (activeDev m =? Z.of_nat j)%Z)).
  { intros j d Hd.
    assert (Hj : (j < List.length (cuDevices m))%nat).
    { apply nth_error_Some. rewrite Hd. discriminate. }
    rewrite position_lines_nth by lia. unfold device_line, getActiveDeviceId.
    simpl (0 + Z.of_nat j)%Z. now rewrite Nat2Z.id, Hd. }
  split; [| split; [| split]].
  - unfold getInfo. rewrite Hplatform. unfold bind, getDeviceCount.
    rewrite getInfo_loop_lines by (unfold vector_size in *; lia).
    now rewrite string_app_assoc.
  - rewrite position_lines_length. lia.
  - exact Hline.
  - intros j line Hj.
    assert (Hlt : (j < List.length (cuDevices m))%nat).
    { rewrite <- Hlen, <- (position_lines_length m (Z.to_nat (nDevices m)) 0).
      apply nth_error_Some. rewrite Hj. discriminate. }
    destruct (nth_error (cuDevices m) j) as [d |] eqn:Hd;
      [| apply nth_error_None in Hd; lia].
    rewrite (Hline j d Hd) in Hj. injection Hj as <-.
    rewrite summary_line_marker, Z.eqb_eq. split; intros; lia.
Qed.

(** A 64-bit Linux build, a host with a working driver and one whose
    driver query fails. *)
Definition linux_build : Build :=
  {| build_arch := ARCH_64; build_os := OS_LNX; build_arm := false;
     AF_VERSION := "3"; AF_VERSION_MINOR := ".0"; REVISION := "e2c1a9f" |}.

Definition healthy_host : Host :=
  {| nvDriverVersion := (1%Z, "340.29");
     cudaDriverGetVersion := (cudaSuccess, 6050%Z);
     cudaRuntimeGetVersion := (cudaSuccess, 6050%Z);
     toString_double := fun _ _ => "6.5" |}.

Definition driverless_host : Host :=
  {| nvDriverVersion := (0%Z, " ");
     cudaDriverGetVersion := (cudaSuccess, 6050%Z);
     cudaRuntimeGetVersion := (cudaErrorUnknown, 0%Z);
     toString_double := fun _ _ => "6.5" |}.

Lemma getInfo_report_witness :
  exists lines : list string,
    Z.of_nat (List.length lines) = 3%Z /\
    nth_error lines 0 =
      Some (summary_line 0 (scenario_prop 1) true) /\
    getInfo linux_build healthy_host trio =
      Returns ("ArrayFire v3.0 (CUDA, 64-bit Linux, build e2c1a9f)" ++ newline ++
               "Platform: CUDA Toolkit 6.5, Driver: 340.29" ++ newline ++
               lines_text lines).
Proof.
  destruct (getInfo_report linux_build healthy_host trio
              ("Platform: CUDA Toolkit 6.5, Driver: 340.29" ++ newline))
    as (lines & Htext & Hlen & Hnth & _).
  - unfold well_formed, registry_invariant.
    repeat split; vm_compute; (reflexivity || discriminate).
  - reflexivity.
  - exists lines. split; [exact Hlen |]. split; [| exact Htext].
    exact (Hnth 0%nat (discovered_device scenario 1) eq_refl).
Defined.

(** X11.  The report stands or falls with its platform line, whatever
    the registry holds.  When [nvDriverVersion] does not return 1 on a
    build that is neither Mac nor ARM, [getDriverVersion],
    [getPlatformInfo] and [getInfo] all throw "Invalid driver", before
    the runtime version is even queried; when the driver answers and
    [cudaRuntimeGetVersion] fails, [getPlatformInfo] and [getInfo] end
    the process. *)
Theorem getInfo_platform_failures (b : Build) (h : Host) (m : DeviceManager) :
  (fst (nvDriverVersion h) <> 1%Z -> build_os b <> OS_MAC -> build_arm b = false ->
   getDriverVersion b h = Throws "Invalid driver" /\
   getPlatformInfo b h = Throws "Invalid driver" /\
   getInfo b h m = Throws "Invalid driver") /\
  (fst (nvDriverVersion h) = 1%Z -> fst (cudaRuntimeGetVersion h) <> cudaSuccess ->
   getDriverVersion b h = Returns (snd (nvDriverVersion h)) /\
   getPlatformInfo b h = Exits /\
   getInfo b h m = Exits).
Proof.
  unfold getInfo, getPlatformInfo, getCUDARuntimeVersion, getDriverVersion.
  destruct (nvDriverVersion h) as [x driverVersion].
  destruct (cudaRuntimeGetVersion h) as [err runtime]. simpl fst. simpl snd.
  split.
  - intros Hx Hos Harm. destruct (Z.eqb_spec x 1) as [| _]; [contradiction |].
    rewrite Harm. destruct (build_os b); try contradiction; repeat split; reflexivity.
  - intros -> Herr. simpl.
    destruct err; [contradiction | repeat split; reflexivity ..].
Qed.

Lemma getInfo_platform_failures_witness :
  getInfo linux_build driverless_host trio = Throws "Invalid driver".
Proof.
  refine (proj2 (proj2 (proj1 (getInfo_platform_failures linux_build driverless_host trio)
                          _ _ _))).
  - simpl. discriminate.
  - discriminate.
  - reflexivity.
Defined.

Local Close Scope string_scope.

(** ** Failure of [setActiveDevice] *)

(** X12.  [setActiveDevice] reports only one error through its return
    value: a position above the device count gives -1 and leaves the
    registry untouched, without a call to the runtime.  For every other
    position the runtime decides: if [cudaSetDevice] succeeds the old
    active position is returned and the new one stored, and if it fails
    the process ends; no failure of the runtime is ever returned to the
    caller. *)
Theorem setActiveDevice_outcomes (P : Platform) (m : DeviceManager) (device : Z)
    (Hmax : vector_size (cuDevices m) <= INT_MAX) :
  (vector_size (cuDevices m) < device ->
   forall P', setActiveDevice P' device m = Returns (-1, m)) /\
  (device <= vector_size (cuDevices m) -> cudaSetDevice P device = cudaSuccess ->
   setActiveDevice P device m = Returns (activeDev m, with_activeDev m device)) /\
  (device <= vector_size (cuDevices m) -> cudaSetDevice P device <> cudaSuccess ->
   setActiveDevice P device m = Exits) /\
  (forall r m', setActiveDevice P device m = Returns (r, m') ->
                cuDevices m' = cuDevices m /\ nDevices m' = nDevices m /\
                (activeDev m' = activeDev m \/ activeDev m' = device)).
Proof.
  pose proof (vector_size_int (cuDevices m) Hmax) as Hint.
  repeat split.
  - intros Hgt P'. apply setActiveDevice_beyond_guard. lia.
  - intros Hle Hok. rewrite setActiveDevice_within_guard by lia. now rewrite Hok.
  - intros Hle Hfail. rewrite setActiveDevice_within_guard by lia.
    destruct (CUDA_outcome (cudaSetDevice P device)) as [[_ Hok] | [-> _]];
      [contradiction | reflexivity].
  - apply (setActiveDevice_cuDevices P device m m' r H).
  - apply (setActiveDevice_cuDevices P device m m' r H).
  - apply setActiveDevice_returns in H.
    destruct H as [(_ & -> & _) | (_ & -> & _)]; [now left | now right].
Qed.

Lemma setActiveDevice_outcomes_witness :
  setActiveDevice scenario 3 trio = Exits /\
  setActiveDevice scenario 4 trio = Returns (-1, trio).
Proof.
  pose proof (setActiveDevice_outcomes scenario trio 3) as H3.
  pose proof (setActiveDevice_outcomes scenario trio 4) as H4.
  split.
  - apply H3; vm_compute; discriminate.
  - apply H4; vm_compute; (reflexivity || discriminate).
Defined.

(** ** The two lookups side by side *)

(** X13.  On a well-formed registry the two lookups agree inside the
    range: [getDeviceNativeId] and [getDeviceProp] answer with the
    native id and the descriptor of the same stored device.  At or
    past the device count they part: [getDeviceNativeId] answers -1
    while [getDeviceProp] answers the descriptor of the device at
    position 0, whose native id [getDeviceNativeId(0)] is not -1. *)
Theorem lookups_side_by_side (m : DeviceManager) (device : Z)
    (Hwf : well_formed m)
    (Hdevice : 0 <= device) :
  (device < getDeviceCount m ->
   exists d, nth_error (cuDevices m) (Z.to_nat device) = Some d /\
             getDeviceNativeId m device = Returns (nativeId d) /\
             getDeviceProp m device = Returns (prop d)) /\
  (getDeviceCount m <= device ->
   getDeviceNativeId m device = Returns (-1) /\
   exists d0, nth_error (cuDevices m) 0 = Some d0 /\
              getDeviceProp m device = Returns (prop d0) /\
              getDeviceNativeId m 0 = Returns (nativeId d0)).
Proof.
  destruct Hwf as (Hnd & Hrange & Hinv).
  unfold getDeviceCount, registry_invariant in *.
  assert (Hsize : 0 < vector_size (cuDevices m) <= INT_MAX) by lia.
  destruct (getDeviceProp_cases m device Hsize) as (Hp_above & Hp_inside & _).
  destruct (getDeviceNativeId_cases m device (proj2 Hsize)) as (Hn_above & Hn_inside & _).
  destruct (getDeviceNativeId_cases m 0 (proj2 Hsize)) as (_ & Hn_zero & _).
  split.
  - intros Hlt.
    destruct Hp_inside as (d & Hd & Hp); [lia |].
    destruct Hn_inside as (d' & Hd' & Hn); [lia |].
    rewrite Hd in Hd'. injection Hd' as <-. now exists d.
  - intros Hge. split; [apply Hn_above; lia |].
    destruct Hp_above as (d0 & Hd0 & Hp); [lia |].
    destruct Hn_zero as (d0' & Hd0' & Hn); [lia |].
    change (Z.to_nat 0) with 0%nat in Hd0'.
    rewrite Hd0 in Hd0'. injection Hd0' as <-. now exists d0.
Qed.

Lemma lookups_side_by_side_witness :
  getDeviceNativeId trio 5 = Returns (-1) /\
  exists d0, nth_error (cuDevices trio) 0 = Some d0 /\
             getDeviceProp trio 5 = Returns (prop d0) /\
             getDeviceNativeId trio 0 = Returns (nativeId d0).
Proof.
  refine (proj2 (lookups_side_by_side trio 5 _ _) _).
  - unfold well_formed, registry_invariant.
    repeat split; vm_compute; (reflexivity || discriminate).
  - lia.
  - vm_compute. discriminate.
Defined.

(** ** The device the constructor activates *)

Lemma DeviceManager_ctor_sorted (P : Platform) (default_mode : Mode.sort_mode)
    (m : DeviceManager) :
  DeviceManager_ctor P default_mode = Returns m ->
  StronglySorted (descending (primary_key default_mode)) (cuDevices m).
Proof.
  rewrite DeviceManager_ctor_cases.
  destruct (cudaError_eqb _ _); [| discriminate].
  destruct (_ =? 0); [discriminate |]. destruct (_ <? 0); [discriminate |].
  destruct (setActiveDevice P 0 _) as [[r m'] | | |] eqn:Hset; simpl; try discriminate.
  intros [= <-]. apply setActiveDevice_cuDevices in Hset. destruct Hset as [-> _].
  apply sortDevices_sorted.
Qed.

(** X14.  The manager the constructor returns has position 0 active,
    and the device stored there has the greatest value of the default
    mode's first key among all discovered devices (the highest
    throughput score when the default mode is [flops]). *)
Theorem DeviceManager_ctor_activates_best
    (P : Platform) (default_mode : Mode.sort_mode) (m : DeviceManager)
    (Hctor : DeviceManager_ctor P default_mode = Returns m) :
  getActiveDeviceId m = 0 /\
  exists best,
    nth_error (cuDevices m) (Z.to_nat (getActiveDeviceId m)) = Some best /\
    getDeviceProp m (getActiveDeviceId m) = Returns (prop best) /\
    forall i, 0 <= i < snd (cudaGetDeviceCount P) ->
              primary_key default_mode (discovered_device P i) <=
              primary_key default_mode best.
Proof.
  pose proof (DeviceManager_ctor_activeDev P default_mode m Hctor) as Hact.
  pose proof (DeviceManager_ctor_sorted P default_mode m Hctor) as Hsorted.
  pose proof (DeviceManager_ctor_nonempty P default_mode m Hctor) as Hne.
  destruct (DeviceManager_ctor_returns P default_mode m Hctor)
    as (n & Hcount & Hpos & Hperm & Hnd).
  unfold getActiveDeviceId. rewrite Hact, Hcount. simpl snd.
  split; [reflexivity |].
  destruct (cuDevices m) as [|best rest] eqn:Hdev; [contradiction |].
  exists best. split; [reflexivity |]. split.
  - unfold getDeviceProp, vector_at. rewrite Hdev.
    assert (Hlen : vector_size (best :: rest) = n).
    { unfold vector_size. rewrite <- (Permutation_length Hperm).
      unfold discovered. rewrite discovery_loop_length. lia. }
    destruct (Z.ltb_spec 0 (to_int (vector_size (best :: rest)))) as [_ | _];
      unfold to_size_t; rewrite Z.mod_0_l by lia;
      (destruct (Z.ltb_spec 0 (vector_size (best :: rest))); [reflexivity | lia]).
  - intros i Hi.
    assert (Hin : In (discovered_device P i) (best :: rest)).
    { apply (Permutation_in _ Hperm). unfold discovered.
      apply (nth_error_In _ (Z.to_nat i)).
      rewrite discovery_loop_nth by lia. do 2 f_equal. lia. }
    inversion Hsorted as [|? ? _ Hf]; subst.
    destruct Hin as [<- | Hin]; [lia |].
    rewrite Forall_forall in Hf. exact (Hf _ Hin).
Qed.

Lemma DeviceManager_ctor_activates_best_witness :
  getActiveDeviceId (with_activeDev (sortDevices Mode.flops (populated scenario 3)) 0) = 0 /\
  exists best,
    nth_error (cuDevices (with_activeDev (sortDevices Mode.flops (populated scenario 3)) 0))
              (Z.to_nat (getActiveDeviceId
                 (with_activeDev (sortDevices Mode.flops (populated scenario 3)) 0))) =
      Some best /\
    getDeviceProp (with_activeDev (sortDevices Mode.flops (populated scenario 3)) 0)
                  (getActiveDeviceId
                     (with_activeDev (sortDevices Mode.flops (populated scenario 3)) 0)) =
      Returns (prop best) /\
    forall i, 0 <= i < snd (cudaGetDeviceCount scenario) ->
              primary_key Mode.flops (discovered_device scenario i) <=
              primary_key Mode.flops best.
Proof.
  apply (DeviceManager_ctor_activates_best scenario Mode.flops
           (with_activeDev (sortDevices Mode.flops (populated scenario 3)) 0)).
  reflexivity.
Defined.
